(** * Sidebar search widget (code/ui/manager/src/components/sidebar/Search.tsx)

    A shallow embedding of the result filter [getResults], the Downshift
    [stateReducer] override, the [selectStory] callback and the last-viewed
    fallback of the [Search] component, and the properties the
    specification states about them.

    Strings that name things (ids, reference ids) are [string]; the text
    typed into the input is a sequence of UTF-16 code units, since
    [String.prototype.trim] is defined on those. *)

From Stdlib Require Import NArith ZArith QArith.
From stdpp Require Import gmap strings list.

Set Warnings "-clear-no-such-hyp".

Local Open Scope Z_scope.
Local Open Scope string_scope.
Local Open Scope list_scope.

(** ** JavaScript values used by the component *)

(** The input text: a JS string, as its UTF-16 code units. *)
Definition ustring := list N.

(** [WhiteSpace] and [LineTerminator] code points of ECMAScript, the ones
    [trim] strips. *)
Definition isWhiteSpace (c : N) : bool :=
  (N.eqb c 9 || N.eqb c 10 || N.eqb c 11 || N.eqb c 12 || N.eqb c 13
   || N.eqb c 32 || N.eqb c 160 || N.eqb c 5760
   || (N.leb 8192 c && N.leb c 8202)
   || N.eqb c 8232 || N.eqb c 8233 || N.eqb c 8239 || N.eqb c 8287
   || N.eqb c 12288 || N.eqb c 65279)%N.

Fixpoint trimStart (s : ustring) : ustring :=
  match s with
  | [] => []
  | c :: rest => if isWhiteSpace c then trimStart rest else s
  end.

Definition trimEnd (s : ustring) : ustring := rev (trimStart (rev s)).

(** [s.trim()] *)
Definition trim (s : ustring) : ustring := trimEnd (trimStart s).

(** Truthiness of a JS string: the empty string is falsy. *)
Definition truthyStr (s : ustring) : bool :=
  match s with [] => false | _ => true end.

(** Truthiness of a [string | null] value. *)
Definition truthyOptStr (s : option ustring) : bool :=
  match s with Some s => truthyStr s | None => false end.

(** A value stored in [isOpen]: Downshift keeps a boolean there, the blur
    override may store the falsy left operand of [&&] itself. *)
Inductive JsFlag :=
| FlagBool (b : bool)
| FlagStr (s : ustring)
| FlagNull.

Definition truthyFlag (f : JsFlag) : bool :=
  match f with
  | FlagBool b => b
  | FlagStr s => truthyStr s
  | FlagNull => false
  end.

(** ** Data model (./types, read by Search.tsx) *)

Inductive ItemType := component | docs | story | group | root.

#[global] Instance ItemType_eq_dec : EqDecision ItemType.
Proof. solve_decision. Defined.

(** An entry of a reference's index. [parent] is optional. *)
Record Item := {
  item_id : string;
  item_name : string;
  item_path : list string;
  item_type : ItemType;
  item_parent : option string;
  item_status : option string;
}.

(** [SearchItem]: an index entry flattened for searching, with the id of the
    reference it came from. *)
Record SearchItem := {
  id : string;
  name : string;
  path : list string;
  type : ItemType;
  parent : option string;
  refId : string;
  status : option string;
}.

(** A match span reported by the fuzzy matcher. *)
Record Match := {
  indices : list (nat * nat);
  key : string;
  value : string;
}.

(** [SearchResult]: a ranked match. *)
Record SearchResult := {
  item : SearchItem;
  matches : list Match;
  score : Q;
}.

(** A reference dataset: its own id, and its index when loaded. *)
Record RefType := {
  ref_id : string;
  index : option (gmap string Item);
}.

(** [CombinedDataset]: only the [hash] lookup is read by the code modelled
    here. *)
Record CombinedDataset := {
  hash : gmap string RefType;
}.

(** [Selection]: a record of the last-viewed history. *)
Record Selection := {
  storyId : string;
  sel_refId : string;
}.

(** ** Effects *)

(** The [ref] option handed to [api.selectStory]:
    [refId !== DEFAULT_REF_ID && refId]. *)
Inductive RefOpt :=
| RefFalse
| RefStr (r : string).

(** What the component does to the outside world. *)
Inductive Effect :=
| ApiSelectStory (story : string) (ref : RefOpt)
    (* api.selectStory(id, undefined, { ref }) *)
| Blur
    (* inputRef.current.blur(); the input is mounted whenever an event
       reaches the reducer, so [inputRef.current] is the element *)
| ShowAllComponents (b : bool)
    (* the state setter of the "show all" flag *)
| FuseSearch (q : ustring)
    (* fuse.search(q) *).

(** How a call can throw. *)
Inductive Failure :=
| ReadIdOfUndefined
    (* [item.id] evaluated while [item] is undefined: a TypeError *)
| SearchItemOfUndefined
    (* [searchItem] applied to undefined, outside its parameter type *)
| MemberOfUndefinedApi
    (* [api.selectStory] evaluated while [api] is undefined: a TypeError *).

(** Where the embedding stops following the code, which goes on. *)
Inductive Beyond :=
| SearchItemOfInherited (k : string)
    (* the index object was read at [k], a name it has no entry for and
       inherits from Object.prototype; the function found there is truthy
       and has no [type], [id] or [parent], so that the code takes it for
       the item, finds no duplicate of it, and pushes [searchItem] of it:
       what that helper, absent from the sources at hand, makes of a value
       that is not an index entry the specification does not say, and no
       type of the data model holds it *).

Inductive Outcome (A : Type) :=
| Returned (a : A)
| Thrown (f : Failure)
| Unmodelled (b : Beyond).
Arguments Returned {A} a.
Arguments Thrown {A} f.
Arguments Unmodelled {A} b.

(** A computation: the effects it performed, in order, and how it ended.
    Effects performed before a throw stay performed. *)
Definition M (A : Type) : Type := list Effect * Outcome A.

Definition ret {A} (a : A) : M A := ([], Returned a).

Definition bind {A B} (m : M A) (f : A -> M B) : M B :=
  match m with
  | (es, Returned a) => let '(es', r) := f a in (es ++ es', r)
  | (es, Thrown x) => (es, Thrown x)
  | (es, Unmodelled b) => (es, Unmodelled b)
  end.

#[global] Instance M_ret : MRet M := @ret.
#[global] Instance M_bind : MBind M := fun A B f m => bind m f.

Definition emit (e : Effect) : M unit := ([e], Returned tt).

Definition throw {A} (x : Failure) : M A := ([], Thrown x).

Definition effects {A} (m : M A) : list Effect := fst m.
Definition outcome {A} (m : M A) : Outcome A := snd m.

(** The "show N more" pseudo-result. [showAll] is the closure stored in the
    marker, as the computation it runs when called. *)
Record ExpandType := {
  showAll : M unit;
  totalCount : Z;
  moreCount : Z;
}.

(** [DownshiftItem = SearchResult | ExpandType] *)
Inductive DownshiftItem :=
| ResultItem (r : SearchResult)
| ExpandItem (e : ExpandType).

(** Modelled from the spec: the type guard [isSearchResult] of ./types is
    not part of the sources at hand; a search result is what "wraps a search
    item with a numeric score and a sequence of substring match spans". [x]
    is [None] for null or undefined. *)
Definition isSearchResult (x : option DownshiftItem) : option SearchResult :=
  match x with Some (ResultItem r) => Some r | _ => None end.

(** Modelled from the spec: the type guard [isExpandType] of ./types is not
    part of the sources at hand; an expand marker is the "sentinel result
    type" that carries the counts and the action to reveal all results. *)
Definition isExpandType (x : option DownshiftItem) : option ExpandType :=
  match x with Some (ExpandItem e) => Some e | _ => None end.

(** Modelled from the spec: [searchItem] of ../../utils/tree is not part of
    the sources at hand; a search item is the "flattened, search-ready
    projection of an indexed item (name, path, type, parent, refId, computed
    status)", the reference id being that of the dataset passed in. *)
Definition searchItem (i : Item) (r : RefType) : SearchItem :=
  {| id := item_id i; name := item_name i; path := item_path i;
     type := item_type i; parent := item_parent i; refId := ref_id r;
     status := item_status i |}.

(** ** The result filter *)

Definition DEFAULT_MAX_SEARCH_RESULTS : nat := 50.

(** The test of the [filter] callback on the item type. *)
Definition searchable (t : ItemType) : bool :=
  match t with component | docs | story => true | _ => false end.

(** [resultIds.has(item.parent)]: a [Set] does no key coercion, and it only
    ever holds ids, so an undefined parent is never found. *)
Definition has_parent (resultIds : gset string) (p : option string) : bool :=
  match p with
  | Some p => bool_decide (p ∈ resultIds)
  | None => false
  end.

(** The [filter] call of [getResults] (lines 201-209): one left-to-right
    pass whose callback reads and grows the set [resultIds]. Returns the
    kept matches and the final set. *)
Fixpoint distinct_from (resultIds : gset string) (ms : list SearchResult)
  : list SearchResult * gset string :=
  match ms with
  | [] => ([], resultIds)
  | m :: rest =>
      if negb (searchable (type (item m))) || has_parent resultIds (parent (item m))
      then distinct_from resultIds rest
      else
        let '(kept, ids) := distinct_from ({[ id (item m) ]} ∪ resultIds) rest in
        (m :: kept, ids)
  end.

Definition distinctResults (ms : list SearchResult) : list SearchResult :=
  fst (distinct_from ∅ ms).

(** [getResults] (lines 195-225). [fuse] is the search function of the
    fuzzy index built over the flattened list; [allComponents] is the "show
    all" flag captured by the callback. *)
Definition getResults (fuse : ustring -> list SearchResult) (allComponents : bool)
    (input : ustring) : M (list DownshiftItem) :=
  if negb (truthyStr input) then ret []
  else
    (emit (FuseSearch input);;
     let distinct := distinctResults (fuse input) in
     if negb (Nat.eqb (length distinct) 0) then
       let results :=
         ResultItem <$>
           take (if allComponents then 1000%nat else DEFAULT_MAX_SEARCH_RESULTS) distinct in
       if Nat.ltb DEFAULT_MAX_SEARCH_RESULTS (length distinct) && negb allComponents
       then ret (results ++
                 [ExpandItem {| showAll := emit (ShowAllComponents true);
                                totalCount := Z.of_nat (length distinct);
                                moreCount := Z.of_nat (length distinct)
                                             - Z.of_nat DEFAULT_MAX_SEARCH_RESULTS |}])
       else ret results
     else ret []).

(** ** The "show all" flag, the focus and the host, as a state *)

(** The state the effects act on: the React state [allComponents], whether
    the input element has the focus, and what the host API and the fuzzy
    index were asked, latest last. *)
Record World := {
  allComponents : bool;
  focused : bool;
  navigations : list (string * RefOpt);
  searches : list ustring;
}.

Definition perform (w : World) (e : Effect) : World :=
  match e with
  | ApiSelectStory s r =>
      {| allComponents := allComponents w; focused := focused w;
         navigations := navigations w ++ [(s, r)]; searches := searches w |}
  | Blur =>
      {| allComponents := allComponents w; focused := false;
         navigations := navigations w; searches := searches w |}
  | ShowAllComponents b =>
      {| allComponents := b; focused := focused w;
         navigations := navigations w; searches := searches w |}
  | FuseSearch q =>
      {| allComponents := allComponents w; focused := focused w;
         navigations := navigations w; searches := searches w ++ [q] |}
  end.

Definition run (w : World) (es : list Effect) : World := foldl perform w es.

(** ** The state container (Downshift) *)

Inductive StateChangeTypes :=
| unknown | mouseUp | itemMouseEnter | keyDownArrowUp | keyDownArrowDown
| keyDownEscape | keyDownEnter | keyDownHome | keyDownEnd | clickItem
| blurInput | changeInput | keyDownSpaceButton | clickButton | blurButton
| controlledPropUpdatedSelectedItem | touchEnd.

(** [DownshiftState<DownshiftItem>] *)
Record DownshiftState := {
  highlightedIndex : option nat;
  inputValue : option ustring;
  isOpen : JsFlag;
  selectedItem : option DownshiftItem;
}.

(** [StateChangeOptions<DownshiftItem>]: a partial state with the type of
    the change. A key that is absent is [None]; the object [{}] has no
    [type] either. *)
Record StateChangeOptions := {
  change_type : option StateChangeTypes;
  c_highlightedIndex : option (option nat);
  c_inputValue : option (option ustring);
  c_isOpen : option JsFlag;
  c_selectedItem : option (option DownshiftItem);
}.

(** [{}] *)
Definition no_changes : StateChangeOptions :=
  {| change_type := None; c_highlightedIndex := None; c_inputValue := None;
     c_isOpen := None; c_selectedItem := None |}.

(** [changes.selectedItem], null and undefined alike as [None]. *)
Definition changes_selectedItem (changes : StateChangeOptions) : option DownshiftItem :=
  match c_selectedItem changes with Some x => x | None => None end.

(** Modelled from the spec: the container is an external library; it takes
    the reducer's answer as the changes to apply, each key present replacing
    the field of the state, so that an answer without keys is "no state
    change". *)
Definition applyChanges (state : DownshiftState) (changes : StateChangeOptions)
  : DownshiftState :=
  {| highlightedIndex := default (highlightedIndex state) (c_highlightedIndex changes);
     inputValue := default (inputValue state) (c_inputValue changes);
     isOpen := default (isOpen state) (c_isOpen changes);
     selectedItem := default (selectedItem state) (c_selectedItem changes) |}.

(** The host API object returned by [useStorybookApi()], when there is one. *)
Inductive API := HostApi.

Section Reducer.

(** [DEFAULT_REF_ID] is imported from ./Sidebar, which is not part of the
    sources at hand. *)
Variable DEFAULT_REF_ID : string.

(** The member call [api.selectStory(id, undefined, { ref })]. *)
Definition api_selectStory (api : option API) (i : string) (ref : RefOpt) : M unit :=
  match api with
  | Some _ => emit (ApiSelectStory i ref)
  | None => throw MemberOfUndefinedApi
  end.

(** [selectStory] (lines 160-169). *)
Definition selectStory (api : option API) (i r : string) : M unit :=
  (match api with
   | Some _ =>
       api_selectStory api i
         (if bool_decide (r ≠ DEFAULT_REF_ID) then RefStr r else RefFalse)
   | None => ret tt
   end);;
  emit Blur;;
  emit (ShowAllComponents false).

(** [state.inputValue && !state.selectedItem] *)
Definition blur_isOpen (state : DownshiftState) : JsFlag :=
  match inputValue state with
  | None => FlagNull
  | Some s =>
      if truthyStr s
      then FlagBool (negb (bool_decide (is_Some (selectedItem state))))
      else FlagStr s
  end.

(** [stateReducer] (lines 227-283), over the [selectStory] callback it
    closes over. *)
Definition stateReducer (selectStory : string -> string -> M unit)
    (state : DownshiftState) (changes : StateChangeOptions)
  : M StateChangeOptions :=
  match change_type changes with
  | Some blurInput =>
      ret {| change_type := change_type changes;
             c_highlightedIndex := c_highlightedIndex changes;
             c_inputValue := Some (inputValue state);
             c_isOpen := Some (blur_isOpen state);
             c_selectedItem := Some None |}
  | Some mouseUp => ret no_changes
  | Some keyDownEscape =>
      if truthyOptStr (inputValue state)
      then ret {| change_type := change_type changes;
                  c_highlightedIndex := c_highlightedIndex changes;
                  c_inputValue := Some (Some []);
                  c_isOpen := Some (FlagBool true);
                  c_selectedItem := Some None |}
      else
        emit Blur;;
        ret {| change_type := change_type changes;
               c_highlightedIndex := c_highlightedIndex changes;
               c_inputValue := c_inputValue changes;
               c_isOpen := Some (FlagBool false);
               c_selectedItem := Some None |}
  | Some clickItem | Some keyDownEnter =>
      match isSearchResult (changes_selectedItem changes) with
      | Some r =>
          selectStory (id (item r)) (refId (item r));;
          ret {| change_type := change_type changes;
                 c_highlightedIndex := c_highlightedIndex changes;
                 c_inputValue := Some (inputValue state);
                 c_isOpen := Some (FlagBool false);
                 c_selectedItem := c_selectedItem changes |}
      | None =>
          match isExpandType (changes_selectedItem changes) with
          | Some e => showAll e;; ret no_changes
          | None => ret changes
          end
      end
  | Some changeInput => emit (ShowAllComponents false);; ret changes
  | _ => ret changes
  end.

End Reducer.

(** ** The last-viewed fallback *)

#[global] Instance Outcome_ret : MRet Outcome := @Returned.
#[global] Instance Outcome_bind : MBind Outcome := fun A B f m =>
  match m with
  | Returned a => f a
  | Thrown x => Thrown x
  | Unmodelled b => Unmodelled b
  end.

(** A pure step inside a computation. *)
Definition lift {A} (o : Outcome A) : M A := ([], o).

(** The names a plain object inherits from [Object.prototype]. *)
Definition inherited_names : list string :=
  ["constructor"; "__defineGetter__"; "__defineSetter__"; "hasOwnProperty";
   "__lookupGetter__"; "__lookupSetter__"; "isPrototypeOf";
   "propertyIsEnumerable"; "toString"; "valueOf"; "__proto__"; "toLocaleString"].

Definition inherited (k : string) : bool := bool_decide (k ∈ inherited_names).

(** What reading a property of an index object finds: an entry of the
    index, a function (or, for "__proto__", the prototype itself) that the
    object inherits under that name, or nothing. The first two are truthy. *)
Inductive Property :=
| Own (i : Item)
| Inherited (k : string)
| Missing.

(** [data.index[k]] for a name [k]: the index is a plain object, so that a
    name it has no entry for is looked up in [Object.prototype]. *)
Definition read (idx : gmap string Item) (k : string) : Property :=
  match idx !! k with
  | Some i => Own i
  | None => if inherited k then Inherited k else Missing
  end.

(** [data.index[story.parent]]: a property key that is undefined reads the
    property named "undefined". *)
Definition index_get (idx : gmap string Item) (k : option string) : Property :=
  read idx (default "undefined" k).

(** [acc.some((res) => res.item.refId === refId && res.item.id === item.id)]
    (line 317). [item.id] is read only once the left operand of [&&] holds:
    on an item that is undefined the read throws; on an inherited function
    it gives undefined, which no id of a result equals. *)
Fixpoint some_duplicate (acc : list SearchResult) (r : string) (it : Property)
  : Outcome bool :=
  match acc with
  | [] => Returned false
  | res :: rest =>
      if bool_decide (refId (item res) = r) then
        match it with
        | Missing => Thrown ReadIdOfUndefined
        | Own i =>
            if bool_decide (id (item res) = item_id i) then Returned true
            else some_duplicate rest r it
        | Inherited _ => some_duplicate rest r it
        end
      else some_duplicate rest r it
  end.

(** The callback of [lastViewed.reduce] (lines 311-322). [dataset.hash] is
    a plain object too, but what it inherits has no [index], so that a
    reference id it has no entry for is skipped whatever its name. *)
Definition lastViewedStep (dataset : CombinedDataset) (acc : list SearchResult)
    (sel : Selection) : Outcome (list SearchResult) :=
  match hash dataset !! sel_refId sel with
  | Some data =>
      match index data with
      | Some idx =>
          match read idx (storyId sel) with
          | Missing => Returned acc
          | found =>
              let it :=
                match found with
                | Own entry =>
                    match item_type entry with
                    | story => index_get idx (item_parent entry)
                    | _ => Own entry
                    end
                | _ => found
                end in
              dup ← some_duplicate acc (sel_refId sel) it;
              if dup : bool then Returned acc
              else
                match it with
                | Own i =>
                    Returned (acc ++ [{| item := searchItem i data;
                                         matches := []; score := 0%Q |}])
                | Missing => Thrown SearchItemOfUndefined
                | Inherited k => Unmodelled (SearchItemOfInherited k)
                end
          end
      | None => Returned acc
      end
  | None => Returned acc
  end.

(** [Array.prototype.reduce] with a callback that may throw. *)
Fixpoint reduce {A B} (f : A -> B -> Outcome A) (l : list B) (acc : A) : Outcome A :=
  match l with
  | [] => Returned acc
  | x :: rest => acc' ← f acc x; reduce f rest acc'
  end.

Definition lastViewedResults (dataset : CombinedDataset) (lastViewed : list Selection)
  : Outcome (list SearchResult) :=
  reduce (lastViewedStep dataset) lastViewed [].

(** The results handed to the render prop (lines 306-323): [getLastViewed]
    is the history the accessor returns, [value] the [inputValue] of the
    container. *)
Definition searchResults (fuse : ustring -> list SearchResult) (allComponents : bool)
    (dataset : CombinedDataset) (getLastViewed : list Selection)
    (value : option ustring) : M (list DownshiftItem) :=
  let input :=
    match value with
    | Some s => if truthyStr s then trim s else []
    | None => []
    end in
  results ← (if truthyStr input then getResults fuse allComponents input
             else ret [] : M (list DownshiftItem));
  let lastViewed := if negb (truthyStr input) then Some getLastViewed else None in
  match lastViewed with
  | Some lv =>
      if negb (Nat.eqb (length lv) 0)
      then lift (acc ← lastViewedResults dataset lv;
                 Returned (ResultItem <$> (acc : list SearchResult)))
      else ret results
  | None => ret results
  end.

(** * Definitions used by the statements *)

(** ** [getResults], in closed form *)

(** The ids of a list of matches. *)
Definition ids (ms : list SearchResult) : list string := (λ m, id (item m)) <$> ms.

(** The cap of [slice]. *)
Definition cap (allComponents : bool) : nat :=
  if allComponents then 1000%nat else DEFAULT_MAX_SEARCH_RESULTS.

(** The markers pushed for [n] distinct matches: one or none. *)
Definition markers (allComponents : bool) (n : nat) : list ExpandType :=
  if Nat.ltb DEFAULT_MAX_SEARCH_RESULTS n && negb allComponents
  then [{| showAll := emit (ShowAllComponents true);
           totalCount := Z.of_nat n;
           moreCount := Z.of_nat n - Z.of_nat DEFAULT_MAX_SEARCH_RESULTS |}]
  else [].

(** ** The filter, as the specification words it *)

(** Step 1: "keep only matches whose item type is one of component, docs,
    story". *)
Definition keep_searchable (ms : list SearchResult) : list SearchResult :=
  filter (λ m, searchable (type (item m)) = true) ms.

(** The same step, on the types named by the specification and not through
    the test of the code. *)
Definition keep_types (ms : list SearchResult) : list SearchResult :=
  filter (λ m, type (item m) ∈ [component; docs; story]) ms.

(** Step 2: "walk matches in ranked order; skip any whose item's parent id
    has already been accepted; accept others and remember their own id as
    seen". [seen] is the list of ids remembered so far. *)
Fixpoint walk (seen : list string) (ms : list SearchResult) : list SearchResult :=
  match ms with
  | [] => []
  | m :: rest =>
      match parent (item m) with
      | Some p =>
          if bool_decide (p ∈ seen) then walk seen rest
          else m :: walk (id (item m) :: seen) rest
      | None => m :: walk (id (item m) :: seen) rest
      end
  end.

(** ** The invariant of claim C1, as it is stated *)

(** No two entries, at different places, whose items have the same parent
    id. *)
Definition no_shared_parent (results : list DownshiftItem) : Prop :=
  ∀ (i j : nat) (ri rj : SearchResult) (p : string),
    i ≠ j →
    results !! i = Some (ResultItem ri) →
    results !! j = Some (ResultItem rj) →
    parent (item ri) = Some p →
    parent (item rj) ≠ Some p.

(** ** The empty query *)

(** An input value that is null, empty, or made of white space only. *)
Definition whitespace_only (value : option ustring) : Prop :=
  match value with
  | Some s => forallb isWhiteSpace s = true
  | None => True
  end.

(** ** The last-viewed fallback, as the specification words it *)

(** A record resolved: the reference id of the record, the reference
    dataset found for it, the item it stands for. *)
Definition Resolved : Type := string * RefType * Item.

(** "Resolve (refId, storyId) against the combined dataset; if the story
    exists, resolve to its parent (if the resolved item is of type story)
    or itself (otherwise)"; [None] when the record is not resolvable. *)
Definition resolve (dataset : CombinedDataset) (sel : Selection) : option Resolved :=
  data ← hash dataset !! sel_refId sel;
  idx ← index data;
  entry ← idx !! storyId sel;
  match item_type entry with
  | story =>
      p ← item_parent entry;
      it ← idx !! p;
      Some (sel_refId sel, data, it)
  | _ => Some (sel_refId sel, data, entry)
  end.

(** The pair entries are deduplicated by. *)
Definition pair_of (x : Resolved) : string * string := (x.1.1, item_id x.2).

(** "Deduplicate by (refId, resolved item id) pair, preserving the
    history's original order": the first entry of each pair stays. *)
Fixpoint dedup_pairs (seen : gset (string * string)) (l : list Resolved)
  : list Resolved :=
  match l with
  | [] => []
  | x :: rest =>
      if bool_decide (pair_of x ∈ seen) then dedup_pairs seen rest
      else x :: dedup_pairs ({[ pair_of x ]} ∪ seen) rest
  end.

(** "Wrap each as a zero-score, zero-match search result". *)
Definition wrap (x : Resolved) : SearchResult :=
  {| item := searchItem x.2 x.1.2; matches := []; score := 0%Q |}.

Definition lastViewed_spec (dataset : CombinedDataset) (history : list Selection)
  : list SearchResult :=
  wrap <$> dedup_pairs ∅ (omap (resolve dataset) history).

(** The combined dataset looks references up by their own id. *)
Definition hash_by_id (dataset : CombinedDataset) : Prop :=
  ∀ r data, hash dataset !! r = Some data → ref_id data = r.

(** What a record finds in the dataset, when its reference and its story
    are there. *)
Definition finds (dataset : CombinedDataset) (sel : Selection)
    (data : RefType) (idx : gmap string Item) (entry : Item) : Prop :=
  hash dataset !! sel_refId sel = Some data
  ∧ index data = Some idx
  ∧ idx !! storyId sel = Some entry.

(** Every story the history names has a parent id, and the parent is in the
    index of the story's reference. *)
Definition stories_have_parents (dataset : CombinedDataset)
    (history : list Selection) : Prop :=
  ∀ sel data idx entry,
    sel ∈ history → finds dataset sel data idx entry → item_type entry = story →
    ∃ p, item_parent entry = Some p ∧ is_Some (idx !! p).

(** No record of the history has a story id that its reference's index has
    no entry for and inherits from [Object.prototype]. *)
Definition story_ids_plain (dataset : CombinedDataset)
    (history : list Selection) : Prop :=
  ∀ sel data idx,
    sel ∈ history → hash dataset !! sel_refId sel = Some data →
    index data = Some idx → idx !! storyId sel = None →
    inherited (storyId sel) = false.

(** No record of the history reads a property that an index only inherits,
    neither at its story id nor at the parent id of its story. *)
Definition reads_plain (dataset : CombinedDataset) (history : list Selection) : Prop :=
  ∀ sel data idx,
    sel ∈ history → hash dataset !! sel_refId sel = Some data →
    index data = Some idx →
    (idx !! storyId sel = None → inherited (storyId sel) = false)
    ∧ (∀ entry p, idx !! storyId sel = Some entry → item_type entry = story →
                  item_parent entry = Some p → idx !! p = None →
                  inherited p = false).

(** Whether the results hold one for reference [r] and id [i]. *)
Definition has_result (acc : list SearchResult) (r i : string) : bool :=
  existsb (λ res, bool_decide (refId (item res) = r)
                  && bool_decide (id (item res) = i)) acc.

(** The entries accepted so far come from the dataset. *)
Definition from_dataset (dataset : CombinedDataset) (x : Resolved) : Prop :=
  hash dataset !! x.1.1 = Some x.1.2.

(** ** Data for the examples *)

(** Two stories of one component, as the fuzzy index may rank them. *)
Definition story_of (i p : string) : SearchResult :=
  {| item := {| id := i; name := i; path := []; type := story;
                parent := Some p; refId := "storybook_internal"; status := None |};
     matches := []; score := 0%Q |}.

Definition two_stories (q : ustring) : list SearchResult :=
  [story_of "button--primary" "button"; story_of "button--secondary" "button"].

(** Sixty components without parents, as the fuzzy index may rank them. *)
Definition component_of (n : nat) : SearchResult :=
  {| item := {| id := String (Ascii.ascii_of_nat (48 + n)) EmptyString;
                name := "component"; path := []; type := component;
                parent := None; refId := "storybook_internal"; status := None |};
     matches := []; score := 0%Q |}.

Definition sixty_components (q : ustring) : list SearchResult :=
  component_of <$> seq 0 60.

(** Matches of every type, a group and a root ranked first. *)
Definition match_of (i : string) (t : ItemType) (p : option string) : SearchResult :=
  {| item := {| id := i; name := i; path := []; type := t;
                parent := p; refId := "storybook_internal"; status := None |};
     matches := []; score := 0%Q |}.

Definition mixed_matches (q : ustring) : list SearchResult :=
  [match_of "forms" group None; match_of "library" root None;
   match_of "button" component (Some "forms");
   match_of "button--docs" docs (Some "button");
   match_of "forms" group None;
   match_of "input--text" story (Some "input")].

(** The component of the two stories. *)
Definition button_component : SearchResult :=
  {| item := {| id := "button"; name := "Button"; path := []; type := component;
                parent := None; refId := "storybook_internal"; status := None |};
     matches := []; score := 0%Q |}.

(** A state with the text "ab" (code units 97, 98) and the list open. *)
Definition typed_state : DownshiftState :=
  {| highlightedIndex := None; inputValue := Some [97%N; 98%N];
     isOpen := FlagBool true; selectedItem := None |}.

(** What the container proposes on Escape: reset everything. *)
Definition escape_changes : StateChangeOptions :=
  {| change_type := Some keyDownEscape; c_highlightedIndex := Some None;
     c_inputValue := Some (Some []); c_isOpen := Some (FlagBool false);
     c_selectedItem := Some None |}.

Definition a_world : World :=
  {| allComponents := true; focused := true; navigations := []; searches := [] |}.

(** The selection example of the specification: a result for the item
    [{id: 'btn--primary', refId: 'r1'}], and Enter on an item. *)
Definition btn_primary : SearchResult :=
  {| item := {| id := "btn--primary"; name := "Primary"; path := ["Button"];
                type := story; parent := Some "btn"; refId := "r1";
                status := None |};
     matches := []; score := 0%Q |}.

Definition enter_on (x : DownshiftItem) : StateChangeOptions :=
  {| change_type := Some keyDownEnter; c_highlightedIndex := Some None;
     c_inputValue := Some (Some []); c_isOpen := Some (FlagBool false);
     c_selectedItem := Some (Some x) |}.

Definition sixty_marker : ExpandType :=
  {| showAll := emit (ShowAllComponents true); totalCount := 60; moreCount := 10 |}.

(** A dataset with one reference [r1]: component [c1], its stories [s1] and
    [s2], a docs page [d1], and a story [o1] whose parent is not in the
    index. *)
Definition an_item (i : string) (t : ItemType) (p : option string) : Item :=
  {| item_id := i; item_name := i; item_path := []; item_type := t;
     item_parent := p; item_status := None |}.

Definition r1 : RefType :=
  {| ref_id := "r1";
     index := Some (list_to_map
                      [("c1", an_item "c1" component None);
                       ("s1", an_item "s1" story (Some "c1"));
                       ("s2", an_item "s2" story (Some "c1"));
                       ("d1", an_item "d1" docs (Some "c1"));
                       ("o1", an_item "o1" story (Some "gone"))]) |}.

Definition a_dataset : CombinedDataset := {| hash := {[ "r1" := r1 ]} |}.

Definition viewed (s r : string) : Selection := {| storyId := s; sel_refId := r |}.

Definition result_of (i : Item) (r : RefType) : SearchResult :=
  {| item := searchItem i r; matches := []; score := 0%Q |}.

(** The same reference, filed under another id than its own. *)
Definition misfiled_dataset : CombinedDataset := {| hash := {[ "r2" := r1 ]} |}.

(** A reference with an entry whose id is "undefined", and a story that has
    no parent. *)
Definition r3 : RefType :=
  {| ref_id := "r3";
     index := Some (list_to_map
                      [("undefined", an_item "undefined" component None);
                       ("s0", an_item "s0" story None)]) |}.

Definition undefined_dataset : CombinedDataset := {| hash := {[ "r3" := r3 ]} |}.

(** A history over that dataset: two stories of [c1], the docs page, a
    story and a reference that are gone. *)
Definition a_history : list Selection :=
  [viewed "s1" "r1"; viewed "d1" "r1"; viewed "s2" "r1"; viewed "zz" "r1";
   viewed "s1" "r9"].

(** ** Definitions for the further properties *)

(** The search results among the entries of a result sequence, in order. *)
Definition result_items (results : list DownshiftItem) : list SearchResult :=
  omap (λ x, isSearchResult (Some x)) results.

(** The query of a render: [inputValue ? inputValue.trim() : ''] (line 306). *)
Definition query (value : option ustring) : ustring :=
  match value with
  | Some s => if truthyStr s then trim s else []
  | None => []
  end.

(** A record the dataset cannot resolve: its reference is absent, or not
    loaded, or reading its index at the story id finds nothing (no entry,
    and no inherited property of that name). *)
Definition unresolvable (dataset : CombinedDataset) (sel : Selection) : Prop :=
  ∀ data idx, hash dataset !! sel_refId sel = Some data → index data = Some idx →
              read idx (storyId sel) = Missing.

(** What every last-viewed result is: an entry of the index of a reference
    of the dataset, flattened, with score 0 and no matches. *)
Definition from_index (dataset : CombinedDataset) (res : SearchResult) : Prop :=
  ∃ r data idx k it,
    hash dataset !! r = Some data ∧ index data = Some idx ∧ idx !! k = Some it
    ∧ res = {| item := searchItem it data; matches := []; score := 0%Q |}.

(** The change types the reducer has a case for. *)
Definition overridden (t : StateChangeTypes) : bool :=
  match t with
  | blurInput | mouseUp | keyDownEscape | clickItem | keyDownEnter | changeInput => true
  | _ => false
  end.

(** * Properties *)

(** ** The filter pass *)

Lemma bind_emit {B} (e : Effect) (k : M B) :
  (emit e;; k) = (e :: effects k, outcome k).
Proof. unfold mbind, M_bind, bind, emit. by destruct k. Qed.

Lemma has_parent_false (S : gset string) (p : option string) :
  has_parent S p = false ↔ ∀ q, p = Some q → q ∉ S.
Proof.
  destruct p as [p|]; simpl.
  - rewrite bool_decide_eq_false. split.
    + intros H q [= <-]. exact H.
    + intros H. by apply H.
  - split; [intros _ q [=] | done].
Qed.

Lemma has_parent_mono (S S' : gset string) (p : option string) :
  S ⊆ S' → has_parent S' p = false → has_parent S p = false.
Proof.
  rewrite !has_parent_false. intros Hsub H q Hq Hin.
  apply (H q Hq). by apply Hsub.
Qed.

(** One unfolding of the pass, by cases on the callback's answer. *)
Lemma distinct_from_skip (S : gset string) (m : SearchResult) (ms : list SearchResult) :
  negb (searchable (type (item m))) || has_parent S (parent (item m)) = true →
  distinct_from S (m :: ms) = distinct_from S ms.
Proof. intros H. simpl. by rewrite H. Qed.

Lemma distinct_from_keep (S : gset string) (m : SearchResult) (ms : list SearchResult) :
  negb (searchable (type (item m))) || has_parent S (parent (item m)) = false →
  distinct_from S (m :: ms) =
    (m :: fst (distinct_from ({[ id (item m) ]} ∪ S) ms),
     snd (distinct_from ({[ id (item m) ]} ∪ S) ms)).
Proof.
  intros H. simpl. rewrite H.
  by destruct (distinct_from ({[ id (item m) ]} ∪ S) ms).
Qed.

(** Every kept match has a searchable type and a parent that was not in the
    set the pass started from. *)
Lemma distinct_from_kept (ms : list SearchResult) (S : gset string) (m : SearchResult) :
  m ∈ fst (distinct_from S ms) →
  searchable (type (item m)) = true ∧ has_parent S (parent (item m)) = false ∧ m ∈ ms.
Proof.
  revert S. induction ms as [|m0 ms IH]; intros S; [simpl; by intros ?%elem_of_nil|].
  destruct (negb (searchable (type (item m0))) || has_parent S (parent (item m0)))
    eqn:E.
  - rewrite distinct_from_skip by done. intros H.
    destruct (IH _ H) as (? & ? & ?). repeat split; try done. by right.
  - rewrite distinct_from_keep by done. simpl.
    apply orb_false_iff in E as [E1 E2]. apply negb_false_iff in E1.
    rewrite elem_of_cons. intros [->|H].
    + repeat split; try done. by left.
    + destruct (IH _ H) as (? & H2 & ?). repeat split; try done.
      * eapply has_parent_mono; [|exact H2]. set_solver.
      * by right.
Qed.

(** No kept match is a child of a match kept before it. *)
Lemma distinct_from_no_child (ms : list SearchResult) (S : gset string)
    (i j : nat) (ri rj : SearchResult) :
  (i < j)%nat →
  fst (distinct_from S ms) !! i = Some ri →
  fst (distinct_from S ms) !! j = Some rj →
  parent (item rj) ≠ Some (id (item ri)).
Proof.
  revert S i j. induction ms as [|m0 ms IH]; intros S i j Hij; [done|].
  destruct (negb (searchable (type (item m0))) || has_parent S (parent (item m0)))
    eqn:E.
  - rewrite distinct_from_skip by done. by apply IH.
  - rewrite distinct_from_keep by done. simpl.
    destruct j as [|j]; [lia|]. destruct i as [|i]; simpl.
    + intros [= <-] Hj Hp.
      apply list_elem_of_lookup_2, distinct_from_kept in Hj as (_ & Hj & _).
      rewrite has_parent_false in Hj. apply (Hj _ Hp). set_solver.
    + apply IH. lia.
Qed.

(** The set the pass ends with: the ids of the kept matches, added to the
    set it started from. *)
Lemma distinct_from_ids (ms : list SearchResult) (S : gset string) :
  snd (distinct_from S ms) = S ∪ list_to_set (ids (fst (distinct_from S ms))).
Proof.
  revert S. induction ms as [|m0 ms IH]; intros S; simpl.
  - set_solver.
  - destruct (negb (searchable (type (item m0))) || has_parent S (parent (item m0))).
    + apply IH.
    + specialize (IH ({[ id (item m0) ]} ∪ S)).
      destruct (distinct_from ({[ id (item m0) ]} ∪ S) ms) as [kept S'].
      simpl in *. subst S'. set_solver.
Qed.

Lemma getResults_empty (fuse : ustring → list SearchResult) (ac : bool) :
  getResults fuse ac [] = ([], Returned []).
Proof. reflexivity. Qed.

Lemma getResults_search (fuse : ustring → list SearchResult) (ac : bool) (input : ustring) :
  truthyStr input = true →
  getResults fuse ac input =
    ([FuseSearch input],
     Returned ((ResultItem <$> take (cap ac) (distinctResults (fuse input)))
               ++ (ExpandItem <$> markers ac (length (distinctResults (fuse input)))))).
Proof.
  intros Hin. unfold getResults. rewrite Hin. simpl negb. cbv iota.
  rewrite bind_emit. unfold markers, cap.
  destruct (distinctResults (fuse input)) as [|m d] eqn:Ed.
  - simpl. by destruct ac.
  - change (negb (length (m :: d) =? 0)%nat) with true. cbv iota.
    destruct (_ && _); simpl; by rewrite ?app_nil_r.
Qed.

Lemma distinct_from_walk (ms : list SearchResult) (S : gset string) (seen : list string) :
  S = list_to_set seen →
  fst (distinct_from S ms) = walk seen (keep_searchable ms).
Proof.
  revert S seen. induction ms as [|m ms IH]; intros S seen HS; [done|].
  unfold keep_searchable. rewrite filter_cons.
  destruct (searchable (type (item m))) eqn:Et.
  - rewrite decide_True by done. simpl walk.
    assert (Hnext : {[ id (item m) ]} ∪ S = list_to_set (id (item m) :: seen))
      by (subst S; set_solver).
    destruct (parent (item m)) as [p|] eqn:Ep.
    + case_bool_decide as Hp.
      * rewrite distinct_from_skip; [by apply IH|].
        rewrite Et, Ep. simpl. apply bool_decide_eq_true. subst S. set_solver.
      * rewrite distinct_from_keep.
        -- simpl. f_equal. by apply IH.
        -- rewrite Et, Ep. simpl. apply bool_decide_eq_false. subst S. set_solver.
    + rewrite distinct_from_keep by (by rewrite Et, Ep).
      simpl. f_equal. by apply IH.
  - rewrite decide_False by done.
    rewrite distinct_from_skip by (by rewrite Et). by apply IH.
Qed.

(** C1, refuted as stated: on two ranked stories of the same component,
    neither of which has its parent among the ids accepted so far,
    [getResults] returns both, and they share the parent id. *)
Lemma getResults_shared_parent :
  outcome (getResults two_stories false [98%N]) =
    Returned [ResultItem (story_of "button--primary" "button");
              ResultItem (story_of "button--secondary" "button")]
  ∧ ¬ no_shared_parent [ResultItem (story_of "button--primary" "button");
                        ResultItem (story_of "button--secondary" "button")].
Proof.
  split; [by vm_compute|].
  intros H. by apply (H 0%nat 1%nat _ _ "button" ltac:(lia) eq_refl eq_refl eq_refl).
Qed.

(** C1, as amended: in the sequence [getResults] returns, no entry's item
    has for parent the id of an entry placed before it. *)
Theorem getResults_no_child_after_parent
    (fuse : ustring → list SearchResult) (allComponents : bool) (input : ustring)
    (results : list DownshiftItem) (i j : nat) (ri rj : SearchResult) :
  outcome (getResults fuse allComponents input) = Returned results →
  (i < j)%nat →
  results !! i = Some (ResultItem ri) →
  results !! j = Some (ResultItem rj) →
  parent (item rj) ≠ Some (id (item ri)).
Proof.
  destruct (truthyStr input) eqn:Hin.
  - rewrite getResults_search by done. intros [= <-] Hij Hi Hj.
    assert (Hres : ∀ k r,
      ((ResultItem <$> take (cap allComponents) (distinctResults (fuse input)))
       ++ (ExpandItem <$>
             markers allComponents (length (distinctResults (fuse input))))) !! k
        = Some (ResultItem r) →
      distinctResults (fuse input) !! k = Some r).
    { intros k r Hk. apply lookup_app_Some in Hk as [Hk | [_ Hk]].
      - rewrite list_lookup_fmap in Hk.
        destruct (take _ _ !! k) as [r'|] eqn:Ek; [|done].
        injection Hk as ->. by apply lookup_take_Some in Ek as [? _].
      - rewrite list_lookup_fmap in Hk. by destruct (markers _ _ !! _). }
    apply Hres in Hi, Hj.
    by apply (distinct_from_no_child (fuse input) ∅ i j).
  - destruct input; [|done]. rewrite getResults_empty. by intros [= <-].
Qed.

Lemma getResults_no_child_after_parent_witness :
  parent (item (story_of "button--secondary" "button"))
    ≠ Some (id (item (story_of "button--primary" "button"))).
Proof.
  apply (getResults_no_child_after_parent two_stories false [98%N]
           [ResultItem (story_of "button--primary" "button");
            ResultItem (story_of "button--secondary" "button")] 0 1).
  - vm_compute. reflexivity.
  - lia.
  - reflexivity.
  - reflexivity.
Defined.

Example getResults_sixty_default :
  outcome (getResults sixty_components false [98%N]) =
    Returned ((ResultItem <$> (component_of <$> seq 0 50))
              ++ [ExpandItem {| showAll := emit (ShowAllComponents true);
                                totalCount := 60; moreCount := 10 |}]).
Proof. by vm_compute. Qed.

Example getResults_sixty_all :
  outcome (getResults sixty_components true [98%N]) =
    Returned (ResultItem <$> (component_of <$> seq 0 60)).
Proof. by vm_compute. Qed.

(** C2: when the search runs, [getResults] returns the first matches of the
    distinct list, at most 50 of them (at most 1000 when "show all" is set),
    followed by the expand markers; there is a marker exactly when there are
    more than 50 distinct matches and "show all" is not set, there is then
    one only, its [totalCount] is the number of distinct matches and its
    [moreCount] that number less 50. *)
Theorem getResults_cap_and_marker
    (fuse : ustring → list SearchResult) (allComponents : bool) (input : ustring) :
  truthyStr input = true →
  ∃ (shown : list SearchResult) (marker : list ExpandType),
    outcome (getResults fuse allComponents input) =
      Returned ((ResultItem <$> shown) ++ (ExpandItem <$> marker))
    ∧ shown = take (length shown) (distinctResults (fuse input))
    ∧ (length shown ≤ if allComponents then 1000 else 50)%nat
    ∧ (marker ≠ [] ↔
         (50 < length (distinctResults (fuse input)))%nat ∧ allComponents = false)
    ∧ (∀ e, e ∈ marker →
         marker = [e]
         ∧ totalCount e = Z.of_nat (length (distinctResults (fuse input)))
         ∧ moreCount e = Z.of_nat (length (distinctResults (fuse input))) - 50).
Proof.
  intros Hin.
  exists (take (cap allComponents) (distinctResults (fuse input))),
         (markers allComponents (length (distinctResults (fuse input)))).
  rewrite getResults_search by done.
  split; [done|]. split; [|split; [|split]].
  - rewrite length_take.
    destruct (Nat.le_ge_cases (cap allComponents)
                (length (distinctResults (fuse input)))) as [Hle|Hge].
    + by rewrite Nat.min_l.
    + rewrite Nat.min_r by done. by rewrite !take_ge by lia.
  - rewrite length_take. unfold cap, DEFAULT_MAX_SEARCH_RESULTS.
    destruct allComponents; lia.
  - unfold markers, DEFAULT_MAX_SEARCH_RESULTS.
    destruct (Nat.ltb_spec 50 (length (distinctResults (fuse input))));
      destruct allComponents; simpl; split; try done; try (intros [? ?]; done || lia).
  - intros e. unfold markers, DEFAULT_MAX_SEARCH_RESULTS.
    destruct (_ && _); [|by intros ?%elem_of_nil].
    intros ->%list_elem_of_singleton. done.
Qed.

Lemma getResults_cap_and_marker_witness :
  ∃ (shown : list SearchResult) (marker : list ExpandType),
    outcome (getResults sixty_components false [98%N]) =
      Returned ((ResultItem <$> shown) ++ (ExpandItem <$> marker))
    ∧ shown = take (length shown) (distinctResults (sixty_components [98%N]))
    ∧ (length shown ≤ 50)%nat
    ∧ (marker ≠ [] ↔
         (50 < length (distinctResults (sixty_components [98%N])))%nat ∧ false = false)
    ∧ (∀ e, e ∈ marker →
         marker = [e]
         ∧ totalCount e = Z.of_nat (length (distinctResults (sixty_components [98%N])))
         ∧ moreCount e = Z.of_nat (length (distinctResults (sixty_components [98%N]))) - 50).
Proof.
  apply (getResults_cap_and_marker sixty_components false [98%N]).
  reflexivity.
Defined.

Lemma keep_types_searchable (ms : list SearchResult) :
  keep_types ms = keep_searchable ms.
Proof.
  unfold keep_types, keep_searchable.
  induction ms as [|m ms IH]; [done|]. rewrite !filter_cons, IH.
  destruct (type (item m)) eqn:Et; simpl;
    repeat first [rewrite decide_True by set_solver
                 |rewrite decide_False by (set_solver || done)];
    reflexivity.
Qed.

(** C3: the pass of [getResults] is the two steps of the specification: it
    keeps the matches of type component, docs or story and no other, walks
    them in ranked order, skips a match whose parent id is among the ids
    seen, and on accepting a match adds the match's own id to the seen ids;
    what the pass leaves in [resultIds] is the ids of the accepted matches,
    and what [getResults] returns is cut from the accepted matches. *)
Theorem getResults_filter_walk
    (fuse : ustring → list SearchResult) (allComponents : bool) (input : ustring) :
  distinctResults (fuse input) = walk [] (keep_types (fuse input))
  ∧ (∀ m, m ∈ distinctResults (fuse input) →
          type (item m) = component ∨ type (item m) = docs ∨ type (item m) = story)
  ∧ snd (distinct_from ∅ (fuse input))
      = list_to_set (ids (walk [] (keep_types (fuse input))))
  ∧ outcome (getResults fuse allComponents input) =
      Returned
        (if truthyStr input
         then (ResultItem <$> take (cap allComponents)
                                (walk [] (keep_types (fuse input))))
              ++ (ExpandItem <$>
                    markers allComponents
                      (length (walk [] (keep_types (fuse input)))))
         else []).
Proof.
  assert (Hw : distinctResults (fuse input) = walk [] (keep_types (fuse input))).
  { rewrite keep_types_searchable. by apply distinct_from_walk. }
  split; [done|]. split; [|split].
  - intros m Hm. apply distinct_from_kept in Hm as (Ht & _ & _).
    destruct (type (item m)); try discriminate Ht; auto.
  - rewrite distinct_from_ids. fold (distinctResults (fuse input)).
    rewrite Hw. set_solver.
  - destruct (truthyStr input) eqn:Hin.
    + rewrite getResults_search by done. by rewrite Hw.
    + destruct input; [|done]. by rewrite getResults_empty.
Qed.

Lemma getResults_filter_walk_witness :
  distinctResults (mixed_matches [98%N])
  = [match_of "button" component (Some "forms");
     match_of "input--text" story (Some "input")]
  ∧ outcome (getResults mixed_matches false [98%N])
    = Returned [ResultItem (match_of "button" component (Some "forms"));
                ResultItem (match_of "input--text" story (Some "input"))].
Proof.
  destruct (getResults_filter_walk mixed_matches false [98%N]) as (H1 & _ & _ & H2).
  rewrite H1, H2. split; by vm_compute.
Defined.

(** The walk on concrete matches: a component ranked before its story hides
    the story; a story ranked before its component hides nothing. *)
Example distinct_component_first :
  distinctResults [button_component; story_of "button--primary" "button"]
  = [button_component].
Proof. by vm_compute. Qed.

Example distinct_story_first :
  distinctResults [story_of "button--primary" "button"; button_component]
  = [story_of "button--primary" "button"; button_component].
Proof. by vm_compute. Qed.

(** ** The claims on the reducer *)

Lemma applyChanges_no_changes (state : DownshiftState) :
  applyChanges state no_changes = state.
Proof. by destruct state. Qed.

(** [selectStory], by cases on the host API. *)
Lemma selectStory_with_api (D i r : string) :
  selectStory D (Some HostApi) i r =
    ([ApiSelectStory i (if bool_decide (r ≠ D) then RefStr r else RefFalse);
      Blur; ShowAllComponents false], Returned tt).
Proof. reflexivity. Qed.

Lemma selectStory_no_api (D i r : string) :
  selectStory D None i r = ([Blur; ShowAllComponents false], Returned tt).
Proof. reflexivity. Qed.

(** The unguarded member call is what fails when there is no API. *)
Lemma api_selectStory_undefined (i : string) (ref : RefOpt) :
  api_selectStory None i ref = ([], Thrown MemberOfUndefinedApi).
Proof. reflexivity. Qed.

(** The reducer on a click or Enter, by what is selected. *)
Lemma stateReducer_on_result (cb : string → string → M unit)
    (state : DownshiftState) (changes : StateChangeOptions) (r : SearchResult) :
  change_type changes = Some clickItem ∨ change_type changes = Some keyDownEnter →
  changes_selectedItem changes = Some (ResultItem r) →
  stateReducer cb state changes =
    (cb (id (item r)) (refId (item r));;
     ret {| change_type := change_type changes;
            c_highlightedIndex := c_highlightedIndex changes;
            c_inputValue := Some (inputValue state);
            c_isOpen := Some (FlagBool false);
            c_selectedItem := c_selectedItem changes |}).
Proof. intros [Ht|Ht] Hs; unfold stateReducer; by rewrite Ht, Hs. Qed.

Lemma stateReducer_on_marker (cb : string → string → M unit)
    (state : DownshiftState) (changes : StateChangeOptions) (e : ExpandType) :
  change_type changes = Some clickItem ∨ change_type changes = Some keyDownEnter →
  changes_selectedItem changes = Some (ExpandItem e) →
  stateReducer cb state changes = (showAll e;; ret no_changes).
Proof. intros [Ht|Ht] Hs; unfold stateReducer; by rewrite Ht, Hs. Qed.

(** The markers [getResults] makes all carry the same reveal action. *)
Lemma getResults_marker_action (fuse : ustring → list SearchResult) (ac : bool)
    (input : ustring) (results : list DownshiftItem) (e : ExpandType) :
  outcome (getResults fuse ac input) = Returned results →
  ExpandItem e ∈ results →
  showAll e = emit (ShowAllComponents true).
Proof.
  destruct (truthyStr input) eqn:Hin.
  - rewrite getResults_search by done. intros [= <-].
    rewrite elem_of_app, !list_elem_of_fmap.
    intros [(r & [=] & _) | (e' & [= <-] & He)].
    unfold markers in He. destruct (_ && _); [|by apply elem_of_nil in He].
    by apply list_elem_of_singleton in He as ->.
  - destruct input; [|done]. rewrite getResults_empty. intros [= <-].
    by intros ?%elem_of_nil.
Qed.

(** C5: on Escape, when the input has text the reducer answers, without
    touching the focus, with changes that empty the text, open the list and
    clear the selection; when the text is already empty (or null) it blurs
    the input and answers with changes that close the list and clear the
    selection. *)
Theorem stateReducer_escape (cb : string → string → M unit)
    (state : DownshiftState) (changes : StateChangeOptions) (w : World) :
  change_type changes = Some keyDownEscape →
  ∃ changes',
    outcome (stateReducer cb state changes) = Returned changes'
    ∧ selectedItem (applyChanges state changes') = None
    ∧ if truthyOptStr (inputValue state)
      then effects (stateReducer cb state changes) = []
           ∧ inputValue (applyChanges state changes') = Some []
           ∧ isOpen (applyChanges state changes') = FlagBool true
      else effects (stateReducer cb state changes) = [Blur]
           ∧ isOpen (applyChanges state changes') = FlagBool false
           ∧ focused (run w (effects (stateReducer cb state changes))) = false.
Proof.
  intros Ht. unfold stateReducer. rewrite Ht.
  destruct (truthyOptStr (inputValue state)); eexists; repeat split.
Qed.

Lemma stateReducer_escape_witness :
  ∃ changes',
    outcome (stateReducer (selectStory "storybook_internal" None)
               typed_state escape_changes) = Returned changes'
    ∧ selectedItem (applyChanges typed_state changes') = None
    ∧ effects (stateReducer (selectStory "storybook_internal" None)
                 typed_state escape_changes) = []
    ∧ inputValue (applyChanges typed_state changes') = Some []
    ∧ isOpen (applyChanges typed_state changes') = FlagBool true.
Proof.
  apply (stateReducer_escape (selectStory "storybook_internal" None)
           typed_state escape_changes a_world).
  reflexivity.
Defined.

Example escape_twice :
  let first := stateReducer (selectStory "storybook_internal" None)
                 typed_state escape_changes in
  let state1 := {| highlightedIndex := None; inputValue := Some [];
                   isOpen := FlagBool true; selectedItem := None |} in
  let changes1 := {| change_type := Some keyDownEscape;
                     c_highlightedIndex := Some None;
                     c_inputValue := Some (Some []);
                     c_isOpen := Some (FlagBool true);
                     c_selectedItem := Some None |} in
  first = ([], Returned changes1)
  ∧ applyChanges typed_state changes1 = state1
  ∧ stateReducer (selectStory "storybook_internal" None) state1 escape_changes
    = ([Blur], Returned {| change_type := Some keyDownEscape;
                           c_highlightedIndex := Some None;
                           c_inputValue := Some (Some []);
                           c_isOpen := Some (FlagBool false);
                           c_selectedItem := Some None |}).
Proof. repeat split; reflexivity. Qed.

(** C6: on a click or Enter with a search result selected, the reducer
    calls the navigation callback once, with the id and the reference id of
    the result's item, and with nothing else; with the component's own
    callback this blurs the input and resets "show all", the host API, when
    there is one, being asked for that id in that reference; the changes it
    answers keep the text the input had. *)
Theorem stateReducer_select (D : string) (api : option API)
    (state : DownshiftState) (changes : StateChangeOptions) (r : SearchResult)
    (w : World) :
  change_type changes = Some clickItem ∨ change_type changes = Some keyDownEnter →
  changes_selectedItem changes = Some (ResultItem r) →
  (∀ cb : string → string → M unit,
     ∃ changes',
       stateReducer cb state changes = (cb (id (item r)) (refId (item r));; ret changes')
       ∧ inputValue (applyChanges state changes') = inputValue state)
  ∧ ∃ changes',
      outcome (stateReducer (selectStory D api) state changes) = Returned changes'
      ∧ effects (stateReducer (selectStory D api) state changes)
        = effects (selectStory D api (id (item r)) (refId (item r)))
      ∧ (api = Some HostApi →
         navigations (run w (effects (stateReducer (selectStory D api) state changes)))
         = navigations w
           ++ [(id (item r),
                if bool_decide (refId (item r) ≠ D) then RefStr (refId (item r))
                else RefFalse)])
      ∧ focused (run w (effects (stateReducer (selectStory D api) state changes)))
        = false
      ∧ allComponents (run w (effects (stateReducer (selectStory D api) state changes)))
        = false
      ∧ inputValue (applyChanges state changes') = inputValue state.
Proof.
  intros Ht Hs. split.
  - intros cb. eexists. split; [by apply stateReducer_on_result|done].
  - rewrite (stateReducer_on_result _ _ _ _ Ht Hs).
    destruct api as [[]|].
    + rewrite selectStory_with_api. eexists. repeat split.
    + rewrite selectStory_no_api. eexists. repeat split. done.
Qed.

Lemma stateReducer_select_witness :
  stateReducer (selectStory "storybook_internal" (Some HostApi)) typed_state
    (enter_on (ResultItem btn_primary))
  = ([ApiSelectStory "btn--primary" (RefStr "r1"); Blur; ShowAllComponents false],
     Returned {| change_type := Some keyDownEnter; c_highlightedIndex := Some None;
                 c_inputValue := Some (Some [97%N; 98%N]);
                 c_isOpen := Some (FlagBool false);
                 c_selectedItem := Some (Some (ResultItem btn_primary)) |})
  ∧ navigations
      (run a_world
         (effects (stateReducer (selectStory "storybook_internal" (Some HostApi))
                     typed_state (enter_on (ResultItem btn_primary)))))
    = [("btn--primary", RefStr "r1")].
Proof.
  split; [reflexivity|].
  destruct (stateReducer_select "storybook_internal" (Some HostApi) typed_state
              (enter_on (ResultItem btn_primary)) btn_primary a_world)
    as (_ & changes' & _ & _ & Hnav & _); [by right | reflexivity |].
  exact (Hnav eq_refl).
Defined.

(** C8: on a click or Enter with an expand marker selected, the reducer
    calls the marker's reveal action and answers with no changes at all, so
    that the container's state stays what it was; for a marker made by
    [getResults] the action sets "show all" and nothing else. *)
Theorem stateReducer_expand (cb : string → string → M unit)
    (state : DownshiftState) (changes : StateChangeOptions) (e : ExpandType) :
  change_type changes = Some clickItem ∨ change_type changes = Some keyDownEnter →
  changes_selectedItem changes = Some (ExpandItem e) →
  stateReducer cb state changes = (showAll e;; ret no_changes)
  ∧ (∀ changes', outcome (stateReducer cb state changes) = Returned changes' →
       applyChanges state changes' = state)
  ∧ (∀ fuse ac input results (w : World),
       outcome (getResults fuse ac input) = Returned results →
       ExpandItem e ∈ results →
       stateReducer cb state changes = ([ShowAllComponents true], Returned no_changes)
       ∧ allComponents (run w (effects (stateReducer cb state changes))) = true
       ∧ focused (run w (effects (stateReducer cb state changes))) = focused w
       ∧ navigations (run w (effects (stateReducer cb state changes))) = navigations w).
Proof.
  intros Ht Hs. rewrite (stateReducer_on_marker _ _ _ _ Ht Hs).
  split; [done|]. split.
  - intros changes'. destruct (showAll e) as [es [[]|x|b]]; simpl; [|done|done].
    intros [= <-]. apply applyChanges_no_changes.
  - intros fuse ac input results w Hres He.
    rewrite (getResults_marker_action _ _ _ _ _ Hres He). done.
Qed.

Lemma stateReducer_expand_witness :
  stateReducer (selectStory "storybook_internal" (Some HostApi)) typed_state
    (enter_on (ExpandItem sixty_marker))
  = ([ShowAllComponents true], Returned no_changes)
  ∧ applyChanges typed_state no_changes = typed_state.
Proof.
  destruct (stateReducer_expand (selectStory "storybook_internal" (Some HostApi))
              typed_state (enter_on (ExpandItem sixty_marker)) sixty_marker)
    as (H1 & H2 & H3); [by right | reflexivity |].
  split.
  - exact H1.
  - apply H2. reflexivity.
Defined.

(** C9: without a host API, [selectStory] skips the navigation call and ends
    normally, and so does the reducer on a click or Enter with a search
    result selected: nothing is asked of the host, the input is blurred and
    "show all" reset as with an API. *)
Theorem selectStory_guards_api (D : string)
    (state : DownshiftState) (changes : StateChangeOptions) (r : SearchResult)
    (w : World) :
  change_type changes = Some clickItem ∨ change_type changes = Some keyDownEnter →
  changes_selectedItem changes = Some (ResultItem r) →
  selectStory D None (id (item r)) (refId (item r))
    = ([Blur; ShowAllComponents false], Returned tt)
  ∧ ∃ changes',
      stateReducer (selectStory D None) state changes
        = ([Blur; ShowAllComponents false], Returned changes')
      ∧ (∀ s ref, ApiSelectStory s ref ∉ effects (stateReducer (selectStory D None)
                                                   state changes))
      ∧ navigations (run w (effects (stateReducer (selectStory D None) state changes)))
        = navigations w.
Proof.
  intros Ht Hs. split; [reflexivity|].
  rewrite (stateReducer_on_result _ _ _ _ Ht Hs), selectStory_no_api.
  eexists. split; [reflexivity|]. split; [|reflexivity].
  intros s ref. simpl. set_solver.
Qed.

Lemma selectStory_guards_api_witness :
  selectStory "storybook_internal" None "btn--primary" "r1"
    = ([Blur; ShowAllComponents false], Returned tt)
  ∧ ∃ changes',
      stateReducer (selectStory "storybook_internal" None) typed_state
        (enter_on (ResultItem btn_primary))
        = ([Blur; ShowAllComponents false], Returned changes')
      ∧ (∀ s ref,
           ApiSelectStory s ref
             ∉ effects (stateReducer (selectStory "storybook_internal" None)
                          typed_state (enter_on (ResultItem btn_primary))))
      ∧ navigations
          (run a_world
             (effects (stateReducer (selectStory "storybook_internal" None)
                         typed_state (enter_on (ResultItem btn_primary)))))
        = navigations a_world.
Proof.
  apply (selectStory_guards_api "storybook_internal" typed_state
           (enter_on (ResultItem btn_primary)) btn_primary a_world);
    [by right | reflexivity].
Defined.

Lemma trimStart_whitespace (s : ustring) :
  forallb isWhiteSpace s = true → trimStart s = [].
Proof.
  induction s as [|c s IH]; simpl; [done|].
  intros [Hc Hs]%andb_true_iff. rewrite Hc. by apply IH.
Qed.

Lemma trim_whitespace (s : ustring) :
  forallb isWhiteSpace s = true → trim s = [].
Proof. intros H. unfold trim. by rewrite trimStart_whitespace. Qed.

Example trim_example : trim [32%N; 9%N; 98%N; 32%N; 99%N; 160%N; 10%N] = [98%N; 32%N; 99%N].
Proof. reflexivity. Qed.

(** The query the component searches with is empty on such a value. *)
Lemma query_of_whitespace (value : option ustring) :
  whitespace_only value →
  match value with
  | Some s => if truthyStr s then trim s else []
  | None => []
  end = [].
Proof.
  destruct value as [s|]; [|done]. simpl. intros H.
  destruct (truthyStr s); [by apply trim_whitespace|done].
Qed.

(** C4: when the input value is null, empty or white space only, the
    trimmed query is empty, the fuzzy index is not searched ([getResults]
    itself answers an empty query with an empty list, without searching),
    and the results are those of the last-viewed history resolved against
    the dataset, whatever the index holds. *)
Theorem searchResults_empty_query
    (fuse : ustring → list SearchResult) (allComponents : bool)
    (dataset : CombinedDataset) (getLastViewed : list Selection)
    (value : option ustring) :
  whitespace_only value →
  searchResults fuse allComponents dataset getLastViewed value
    = lift (acc ← lastViewedResults dataset getLastViewed;
            Returned (ResultItem <$> (acc : list SearchResult)))
  ∧ effects (searchResults fuse allComponents dataset getLastViewed value) = []
  ∧ (∀ q, FuseSearch q
            ∉ effects (searchResults fuse allComponents dataset getLastViewed value))
  ∧ getResults fuse allComponents [] = ([], Returned []).
Proof.
  intros Hv.
  assert (Heq : searchResults fuse allComponents dataset getLastViewed value
    = lift (acc ← lastViewedResults dataset getLastViewed;
            Returned (ResultItem <$> (acc : list SearchResult)))).
  { unfold searchResults. rewrite (query_of_whitespace value Hv). simpl.
    by destruct getLastViewed as [|sel lv]. }
  rewrite Heq. split; [done|]. split; [done|]. split; [|reflexivity].
  intros q. simpl. by intros ?%elem_of_nil.
Qed.

(** The history resolution example of the specification, with a second
    story of the same component, a docs page, a story that is gone and a
    reference that is gone. *)
Example lastViewedResults_example :
  lastViewedResults a_dataset
    [viewed "s1" "r1"; viewed "d1" "r1"; viewed "s2" "r1"; viewed "zz" "r1";
     viewed "s1" "r9"]
  = Returned [result_of (an_item "c1" component None) r1;
              result_of (an_item "d1" docs (Some "c1")) r1].
Proof. by vm_compute. Qed.

Lemma searchResults_empty_query_witness :
  searchResults two_stories false a_dataset [viewed "s1" "r1"] (Some [32%N; 9%N])
  = ([], Returned [ResultItem (result_of (an_item "c1" component None) r1)]).
Proof.
  destruct (searchResults_empty_query two_stories false a_dataset
              [viewed "s1" "r1"] (Some [32%N; 9%N])) as (H & _); [reflexivity|].
  rewrite H. by vm_compute.
Defined.

(** A query with text is trimmed and searched once. *)
Example searchResults_query :
  searchResults two_stories false a_dataset [viewed "s1" "r1"] (Some [32%N; 98%N; 32%N])
  = ([FuseSearch [98%N]],
     Returned [ResultItem (story_of "button--primary" "button");
               ResultItem (story_of "button--secondary" "button")]).
Proof. by vm_compute. Qed.

(** ** Reading the index *)

Lemma read_own (idx : gmap string Item) (k : string) (i : Item) :
  idx !! k = Some i → read idx k = Own i.
Proof. intros H. unfold read. by rewrite H. Qed.

Lemma read_missing (idx : gmap string Item) (k : string) :
  idx !! k = None → inherited k = false → read idx k = Missing.
Proof. intros H Hk. unfold read. by rewrite H, Hk. Qed.

Lemma read_Own_inv (idx : gmap string Item) (k : string) (i : Item) :
  read idx k = Own i → idx !! k = Some i.
Proof.
  unfold read. destruct (idx !! k); [by intros [= ->]|].
  by destruct (inherited k).
Qed.

(** ** The reduction against its specification *)

(** The comparison on an entry of the index: it never throws. *)
Lemma some_duplicate_own (acc : list SearchResult) (r : string) (i : Item) :
  some_duplicate acc r (Own i) = Returned (has_result acc r (item_id i)).
Proof.
  induction acc as [|res acc IH]; [done|].
  unfold has_result in *. cbn [some_duplicate existsb]. rewrite IH.
  destruct (bool_decide (refId (item res) = r)); [|done].
  by destruct (bool_decide (id (item res) = item_id i)).
Qed.

(** On an item that is missing the comparison throws as soon as it meets a
    result of the same reference, and finds nothing otherwise. *)
Lemma some_duplicate_missing (acc : list SearchResult) (r : string) :
  some_duplicate acc r Missing
  = if bool_decide (r ∈ (λ res, refId (item res)) <$> acc)
    then Thrown ReadIdOfUndefined else Returned false.
Proof.
  induction acc as [|res acc IH].
  - rewrite bool_decide_eq_false_2; [done|]. by intros ?%elem_of_nil.
  - simpl. destruct (decide (refId (item res) = r)) as [Hr|Hr].
    + rewrite (bool_decide_eq_true_2 (refId (item res) = r) Hr).
      rewrite bool_decide_eq_true_2; [done|]. rewrite Hr. by left.
    + rewrite (bool_decide_eq_false_2 (refId (item res) = r) Hr), IH.
      apply (f_equal (λ b : bool, if b then _ else _)).
      apply bool_decide_ext. rewrite elem_of_cons. naive_solver.
Qed.

Lemma resolve_from_dataset (dataset : CombinedDataset) (sel : Selection) (x : Resolved) :
  resolve dataset sel = Some x → from_dataset dataset x ∧ x.1.1 = sel_refId sel.
Proof.
  unfold resolve, from_dataset. intros H.
  destruct (hash dataset !! sel_refId sel) as [data|] eqn:Hd; [|done]. simpl in H.
  destruct (index data) as [idx|]; [|done]. simpl in H.
  destruct (idx !! storyId sel) as [entry|]; [|done]. simpl in H.
  destruct (item_type entry); try (by injection H as <-).
  destruct (item_parent entry) as [p|]; [|done]. simpl in H.
  destruct (idx !! p); [|done]. by injection H as <-.
Qed.

Lemma has_result_wrap (dataset : CombinedDataset) (accL : list Resolved)
    (r i : string) :
  hash_by_id dataset →
  Forall (from_dataset dataset) accL →
  has_result (wrap <$> accL) r i
  = bool_decide ((r, i) ∈ (list_to_set (pair_of <$> accL) : gset (string * string))).
Proof.
  intros Hh. induction accL as [|x accL IH]; intros Hacc.
  - reflexivity.
  - apply Forall_cons in Hacc as [Hx Hacc]. apply Hh in Hx.
    rewrite !fmap_cons, list_to_set_cons.
    unfold has_result in *. cbn [existsb].
    change (refId (item (wrap x))) with (ref_id x.1.2).
    change (id (item (wrap x))) with (item_id x.2).
    rewrite IH by done. rewrite Hx.
    destruct (decide (x.1.1 = r)) as [Hr|Hr];
      [destruct (decide (item_id x.2 = i)) as [Hi|Hi]|].
    + rewrite (bool_decide_eq_true_2 _ Hr), (bool_decide_eq_true_2 _ Hi).
      symmetry. apply bool_decide_eq_true.
      apply elem_of_union_l, elem_of_singleton. unfold pair_of. by rewrite Hr, Hi.
    + rewrite (bool_decide_eq_true_2 _ Hr), (bool_decide_eq_false_2 _ Hi).
      apply bool_decide_ext.
      rewrite elem_of_union, elem_of_singleton. unfold pair_of at 1.
      split; [by right|].
      intros [[= _ Hi']|?]; [by rewrite Hi' in Hi|done].
    + rewrite (bool_decide_eq_false_2 _ Hr).
      apply bool_decide_ext.
      rewrite elem_of_union, elem_of_singleton. unfold pair_of at 1.
      split; [by right|].
      intros [[= Hr' _]|?]; [by rewrite Hr' in Hr|done].
Qed.

(** One record: the callback appends the wrapped entry when the record
    resolves to a pair not seen before, and leaves the results as they
    are otherwise. *)
Lemma lastViewedStep_resolve (dataset : CombinedDataset) (accL : list Resolved)
    (sel : Selection) :
  hash_by_id dataset →
  stories_have_parents dataset [sel] →
  story_ids_plain dataset [sel] →
  Forall (from_dataset dataset) accL →
  lastViewedStep dataset (wrap <$> accL) sel
  = Returned (wrap <$> (accL ++
      match resolve dataset sel with
      | Some x =>
          if bool_decide (pair_of x ∈ (list_to_set (pair_of <$> accL)
                                       : gset (string * string)))
          then [] else [x]
      | None => []
      end)).
Proof.
  intros Hh Hp Hplain Hacc. unfold lastViewedStep, resolve.
  destruct (hash dataset !! sel_refId sel) as [data|] eqn:Hd; simpl;
    [|by rewrite app_nil_r].
  destruct (index data) as [idx|] eqn:Hi; simpl; [|by rewrite app_nil_r].
  destruct (idx !! storyId sel) as [entry|] eqn:He; simpl.
  2:{ rewrite (read_missing idx (storyId sel) He);
        [by rewrite app_nil_r|].
      apply (Hplain sel data idx); [by left|done..]. }
  rewrite (read_own idx (storyId sel) entry He).
  assert (Hfinal : ∀ i : Item,
    (some_duplicate (wrap <$> accL) (sel_refId sel) (Own i) ≫= λ dup : bool,
       if dup then Returned (wrap <$> accL)
       else Returned ((wrap <$> accL)
                      ++ [{| item := searchItem i data; matches := []; score := 0%Q |}]))
    = Returned (wrap <$> (accL ++
        if bool_decide (pair_of (sel_refId sel, data, i)
                          ∈ (list_to_set (pair_of <$> accL) : gset (string * string)))
        then [] else [(sel_refId sel, data, i)]))).
  { intros i. rewrite some_duplicate_own, (has_result_wrap dataset) by done.
    change (pair_of (sel_refId sel, data, i)) with (sel_refId sel, item_id i).
    destruct (bool_decide _); [by rewrite app_nil_r|].
    by rewrite fmap_app. }
  destruct (item_type entry) eqn:Ht; try apply Hfinal.
  destruct (Hp sel data idx entry) as (p & Hpar & [it Hit]);
    [by left | done | done |].
  unfold index_get. rewrite Hpar. simpl.
  rewrite (read_own idx p it Hit), Hit. simpl. apply Hfinal.
Qed.

Lemma reduce_lastViewed (dataset : CombinedDataset) (history : list Selection)
    (accL : list Resolved) :
  hash_by_id dataset →
  stories_have_parents dataset history →
  story_ids_plain dataset history →
  Forall (from_dataset dataset) accL →
  reduce (lastViewedStep dataset) history (wrap <$> accL)
  = Returned (wrap <$> (accL ++
      dedup_pairs (list_to_set (pair_of <$> accL)) (omap (resolve dataset) history))).
Proof.
  intros Hh. revert accL.
  induction history as [|sel history IH]; intros accL Hp Hplain Hacc; simpl.
  - by rewrite app_nil_r.
  - rewrite lastViewedStep_resolve; [|done| | |done].
    2:{ intros s d i e Hs. apply list_elem_of_singleton in Hs as ->.
        apply Hp. by left. }
    2:{ intros s d i Hs. apply list_elem_of_singleton in Hs as ->.
        apply Hplain. by left. }
    assert (Hp' : stories_have_parents dataset history).
    { intros s d i e Hs. apply Hp. by right. }
    assert (Hplain' : story_ids_plain dataset history).
    { intros s d i Hs. apply Hplain. by right. }
    change (Returned ?a ≫= ?f) with (f a). cbv beta.
    destruct (resolve dataset sel) as [x|] eqn:Hx; simpl.
    + destruct (resolve_from_dataset _ _ _ Hx) as [Hfrom _].
      case_bool_decide as Hseen.
      * rewrite app_nil_r. by apply IH.
      * assert (Hset : list_to_set (pair_of <$> accL ++ [x])
                       = ({[ pair_of x ]} ∪ list_to_set (pair_of <$> accL)
                          : gset (string * string))).
        { rewrite fmap_app, list_to_set_app_L. simpl. set_solver. }
        rewrite IH; [|done|done|].
        -- by rewrite Hset, <- app_assoc.
        -- apply Forall_app. split; [done|]. by apply Forall_singleton.
    + rewrite app_nil_r. by apply IH.
Qed.

(** The deduplication keeps entries of the list, in the list's order, with
    pairwise different pairs, none of them seen before. *)
Lemma dedup_pairs_sublist (l : list Resolved) (seen : gset (string * string)) :
  dedup_pairs seen l `sublist_of` l.
Proof.
  revert seen. induction l as [|x l IH]; intros seen; simpl; [done|].
  case_bool_decide.
  - by apply sublist_cons.
  - by apply sublist_skip.
Qed.

Lemma dedup_pairs_fresh (l : list Resolved) (seen : gset (string * string)) (x : Resolved) :
  x ∈ dedup_pairs seen l → pair_of x ∉ seen.
Proof.
  revert seen. induction l as [|y l IH]; intros seen; simpl.
  - by intros ?%elem_of_nil.
  - case_bool_decide as Hy; [by apply IH|].
    intros [->|Hx]%elem_of_cons; [done|].
    apply IH in Hx. set_solver.
Qed.

Lemma dedup_pairs_NoDup (l : list Resolved) (seen : gset (string * string)) :
  NoDup (pair_of <$> dedup_pairs seen l).
Proof.
  revert seen. induction l as [|y l IH]; intros seen; simpl; [constructor|].
  case_bool_decide as Hy; [by apply IH|].
  rewrite fmap_cons. constructor; [|by apply IH].
  intros (x & Hxy & Hx)%list_elem_of_fmap.
  apply dedup_pairs_fresh in Hx. apply Hx.
  by apply elem_of_union_l, elem_of_singleton.
Qed.

(** The pair of an entry of the dataset is read back from its result. *)
Lemma pair_of_wrap (dataset : CombinedDataset) (x : Resolved) :
  hash_by_id dataset → from_dataset dataset x →
  (refId (item (wrap x)), id (item (wrap x))) = pair_of x.
Proof. intros Hh Hx. unfold pair_of. simpl. by rewrite (Hh _ _ Hx). Qed.

(** The render by the query: a search when there is one, the history
    otherwise. *)
Lemma searchResults_by_query
    (fuse : ustring → list SearchResult) (allComponents : bool)
    (dataset : CombinedDataset) (getLastViewed : list Selection)
    (value : option ustring) :
  searchResults fuse allComponents dataset getLastViewed value
  = if truthyStr (query value)
    then getResults fuse allComponents (query value)
    else lift (acc ← lastViewedResults dataset getLastViewed;
               Returned (ResultItem <$> (acc : list SearchResult))).
Proof.
  unfold searchResults. fold (query value).
  destruct (truthyStr (query value)) eqn:Hq.
  - rewrite getResults_search by done. reflexivity.
  - destruct (query value); [|done]. simpl.
    by destruct getLastViewed.
Qed.

(** C7, refuted as stated: not every history and dataset give the results
    the claim describes. A story whose parent is not in the index, viewed
    after a story of the same reference, makes the reduction throw; and on a
    dataset that files a reference under another id than its own, a story
    viewed twice gives two results for the same item. *)
Lemma lastViewed_fallback_fails :
  lastViewedResults a_dataset [viewed "s1" "r1"; viewed "o1" "r1"]
    = Thrown ReadIdOfUndefined
  ∧ lastViewedResults misfiled_dataset [viewed "s1" "r2"; viewed "s1" "r2"]
    = Returned [result_of (an_item "c1" component None) r1;
                result_of (an_item "c1" component None) r1]
  ∧ lastViewed_spec misfiled_dataset [viewed "s1" "r2"; viewed "s1" "r2"]
    = [result_of (an_item "c1" component None) r1].
Proof. repeat split; by vm_compute. Qed.

(** C7, as amended: on a dataset that looks references up by their id, in
    which the stories of the history have their parents, and where no story
    id of the history is a name its index only inherits, the last-viewed
    results are the records resolved against the dataset (absent references
    and stories skipped, a story replaced by its parent, any other item
    kept), deduplicated by the pair of reference id and item id with the
    first of each pair kept in the order of the history, each wrapped with
    score 0 and no matches; they are what the component shows on an empty
    query. *)
Theorem lastViewed_fallback
    (fuse : ustring → list SearchResult) (allComponents : bool)
    (dataset : CombinedDataset) (history : list Selection) (value : option ustring) :
  hash_by_id dataset →
  stories_have_parents dataset history →
  story_ids_plain dataset history →
  whitespace_only value →
  lastViewedResults dataset history = Returned (lastViewed_spec dataset history)
  ∧ searchResults fuse allComponents dataset history value
    = ([], Returned (ResultItem <$> lastViewed_spec dataset history))
  ∧ (∃ kept, lastViewed_spec dataset history = wrap <$> kept
             ∧ kept `sublist_of` omap (resolve dataset) history)
  ∧ NoDup ((λ res, (refId (item res), id (item res)))
             <$> lastViewed_spec dataset history)
  ∧ (∀ res, res ∈ lastViewed_spec dataset history →
       score res = 0%Q ∧ matches res = []).
Proof.
  intros Hh Hp Hplain Hv.
  assert (Hcode : lastViewedResults dataset history
                  = Returned (lastViewed_spec dataset history)).
  { unfold lastViewedResults, lastViewed_spec.
    change (@nil SearchResult) with (wrap <$> []).
    rewrite reduce_lastViewed by done. reflexivity. }
  split; [done|]. split; [|split; [|split]].
  - rewrite searchResults_by_query. unfold query.
    rewrite (query_of_whitespace value Hv). simpl. by rewrite Hcode.
  - eexists. split; [reflexivity|]. apply dedup_pairs_sublist.
  - unfold lastViewed_spec. rewrite <- list_fmap_compose.
    erewrite list_fmap_ext; [apply (dedup_pairs_NoDup _ ∅)|].
    intros k x Hx. simpl. apply (pair_of_wrap dataset); [done|].
    apply list_elem_of_lookup_2 in Hx.
    eapply elem_of_sublist in Hx; [|apply dedup_pairs_sublist].
    apply list_elem_of_omap in Hx as (sel & _ & Hres).
    by apply resolve_from_dataset in Hres as [? _].
  - unfold lastViewed_spec. intros res (x & -> & _)%list_elem_of_fmap. done.
Qed.

Lemma a_dataset_by_id : hash_by_id a_dataset.
Proof.
  intros r data H. unfold a_dataset in H. simpl in H.
  by apply lookup_singleton_Some in H as [<- <-].
Qed.

Lemma a_history_parents : stories_have_parents a_dataset a_history.
Proof.
  intros sel data idx entry Hin (Hd & Hi & He) Ht.
  unfold a_history in Hin.
  repeat (apply elem_of_cons in Hin as [->|Hin]);
    [..|by apply elem_of_nil in Hin];
    vm_compute in Hd; try discriminate Hd; injection Hd as <-;
    injection Hi as <-; vm_compute in He; try discriminate He;
    injection He as <-; try discriminate Ht;
    (exists "c1"; split; [reflexivity|eexists; by vm_compute]).
Qed.

Lemma a_history_plain : story_ids_plain a_dataset a_history.
Proof.
  intros sel data idx Hin Hd Hi He. unfold a_history in Hin.
  repeat (apply elem_of_cons in Hin as [->|Hin]);
    [..|by apply elem_of_nil in Hin]; reflexivity.
Qed.

Lemma lastViewed_fallback_witness :
  lastViewedResults a_dataset a_history
  = Returned [result_of (an_item "c1" component None) r1;
              result_of (an_item "d1" docs (Some "c1")) r1]
  ∧ searchResults two_stories false a_dataset a_history (Some [32%N])
    = ([], Returned [ResultItem (result_of (an_item "c1" component None) r1);
                     ResultItem (result_of (an_item "d1" docs (Some "c1")) r1)]).
Proof.
  destruct (lastViewed_fallback two_stories false a_dataset a_history (Some [32%N])
              a_dataset_by_id a_history_parents a_history_plain) as (H1 & H2 & _);
    [reflexivity|].
  rewrite H1, H2. split; by vm_compute.
Defined.

(** ** Where the reduction is defined *)

(** A record whose story has a parent id that its index neither has an
    entry for nor inherits makes the callback throw: in the comparison when
    a result of the same reference has been accepted, and at [searchItem]
    otherwise. *)
Lemma lastViewedStep_throws (dataset : CombinedDataset) (acc : list SearchResult)
    (sel : Selection) (data : RefType) (idx : gmap string Item) (entry : Item)
    (p : string) :
  finds dataset sel data idx entry →
  item_type entry = story →
  item_parent entry = Some p →
  idx !! p = None →
  inherited p = false →
  lastViewedStep dataset acc sel
  = Thrown (if bool_decide (sel_refId sel ∈ (λ res, refId (item res)) <$> acc)
            then ReadIdOfUndefined else SearchItemOfUndefined).
Proof.
  intros (Hd & Hi & He) Ht Hp Hnone Hplain. unfold lastViewedStep.
  rewrite Hd, Hi, (read_own idx (storyId sel) entry He), Ht.
  unfold index_get. rewrite Hp. simpl.
  rewrite (read_missing idx p Hnone Hplain), some_duplicate_missing.
  by destruct (bool_decide _).
Qed.

Lemma lastViewedStep_returns (dataset : CombinedDataset) (acc : list SearchResult)
    (sel : Selection) :
  stories_have_parents dataset [sel] →
  story_ids_plain dataset [sel] →
  ∃ acc', lastViewedStep dataset acc sel = Returned acc'.
Proof.
  intros Hp Hplain. unfold lastViewedStep.
  destruct (hash dataset !! sel_refId sel) as [data|] eqn:Hd; [|by eexists].
  destruct (index data) as [idx|] eqn:Hi; [|by eexists].
  destruct (idx !! storyId sel) as [entry|] eqn:He.
  2:{ rewrite (read_missing idx (storyId sel) He); [by eexists|].
      apply (Hplain sel data idx); [by left|done..]. }
  rewrite (read_own idx (storyId sel) entry He).
  assert (Hfinal : ∀ i : Item, ∃ acc',
    (some_duplicate acc (sel_refId sel) (Own i) ≫= λ dup : bool,
       if dup then Returned acc
       else Returned (acc ++ [{| item := searchItem i data;
                                 matches := []; score := 0%Q |}]))
    = Returned acc').
  { intros i. rewrite some_duplicate_own.
    destruct (has_result _ _ _); by eexists. }
  destruct (item_type entry) eqn:Ht; try apply Hfinal.
  destruct (Hp sel data idx entry) as (p & Hpar & [it Hit]);
    [by left|done|done|].
  unfold index_get. rewrite Hpar. simpl. rewrite (read_own idx p it Hit).
  apply Hfinal.
Qed.

Lemma reduce_lastViewed_returns (dataset : CombinedDataset) (history : list Selection)
    (acc : list SearchResult) :
  stories_have_parents dataset history →
  story_ids_plain dataset history →
  ∃ acc', reduce (lastViewedStep dataset) history acc = Returned acc'.
Proof.
  revert acc. induction history as [|sel history IH]; intros acc Hp Hplain.
  - by eexists.
  - simpl. destruct (lastViewedStep_returns dataset acc sel) as [acc1 ->].
    { intros s d i e Hs. apply list_elem_of_singleton in Hs as ->.
      apply Hp. by left. }
    { intros s d i Hs. apply list_elem_of_singleton in Hs as ->.
      apply Hplain. by left. }
    apply IH.
    + intros s d i e Hs. apply Hp. by right.
    + intros s d i Hs. apply Hplain. by right.
Qed.

(** C10, refuted as stated. A story without its parent that is viewed
    first meets no accepted result: the comparison answers false and reads
    no field, and the missing entry goes on to [searchItem]. And the
    precondition is not needed for the reduction to return: a story that
    has no parent id at all reads the property named "undefined", which an
    index may have. *)
Lemma lastViewed_needs_parents_fails :
  some_duplicate [] "r1" Missing = Returned false
  ∧ lastViewedStep a_dataset [] (viewed "o1" "r1") = Thrown SearchItemOfUndefined
  ∧ lastViewedResults undefined_dataset [viewed "s0" "r3"]
    = Returned [result_of (an_item "undefined" component None) r3]
  ∧ ¬ stories_have_parents undefined_dataset [viewed "s0" "r3"].
Proof.
  split; [reflexivity|]. split; [by vm_compute|]. split; [by vm_compute|].
  intros H.
  destruct (H (viewed "s0" "r3") r3 (default ∅ (index r3)) (an_item "s0" story None))
    as (p & Hp & _); [by left | | reflexivity | discriminate Hp].
  repeat split; by vm_compute.
Qed.

(** C10, as amended: the last-viewed reduction ends normally whenever every
    story the history names has a parent id that is in the index of its
    reference (and no story id of the history is a name its index only
    inherits). The parent is looked up without a presence check: on a
    story whose parent id the index neither holds nor inherits, the
    comparison reads [id] of the missing entry, and throws, when a result of
    the same reference was accepted before; when none was, the comparison
    reads nothing and the callback fails at [searchItem]. *)
Theorem lastViewed_needs_parents (dataset : CombinedDataset)
    (history : list Selection) :
  (stories_have_parents dataset history →
   story_ids_plain dataset history →
   ∃ acc, lastViewedResults dataset history = Returned acc)
  ∧ ∀ acc sel data idx entry p,
      finds dataset sel data idx entry →
      item_type entry = story →
      item_parent entry = Some p →
      idx !! p = None →
      inherited p = false →
      some_duplicate acc (sel_refId sel) (index_get idx (item_parent entry))
      = (if bool_decide (sel_refId sel ∈ (λ res, refId (item res)) <$> acc)
         then Thrown ReadIdOfUndefined else Returned false)
      ∧ lastViewedStep dataset acc sel
        = Thrown (if bool_decide (sel_refId sel ∈ (λ res, refId (item res)) <$> acc)
                  then ReadIdOfUndefined else SearchItemOfUndefined).
Proof.
  split.
  - apply reduce_lastViewed_returns.
  - intros acc sel data idx entry p Hf Ht Hp Hnone Hplain. split.
    + unfold index_get. rewrite Hp. simpl.
      rewrite (read_missing idx p Hnone Hplain). apply some_duplicate_missing.
    + by apply (lastViewedStep_throws dataset acc sel data idx entry p).
Qed.

(** A story without its parent, viewed after a story of the same reference
    and viewed first; and a story id that the index inherits. *)
Example lastViewedResults_orphan_after :
  lastViewedResults a_dataset [viewed "s1" "r1"; viewed "o1" "r1"]
  = Thrown ReadIdOfUndefined.
Proof. by vm_compute. Qed.

Example lastViewedResults_orphan_first :
  lastViewedResults a_dataset [viewed "o1" "r1"; viewed "s1" "r1"]
  = Thrown SearchItemOfUndefined.
Proof. by vm_compute. Qed.

Example lastViewedResults_inherited :
  lastViewedResults a_dataset [viewed "s1" "r1"; viewed "constructor" "r1"]
  = Unmodelled (SearchItemOfInherited "constructor").
Proof. by vm_compute. Qed.

Lemma lastViewed_needs_parents_witness :
  (∃ acc, lastViewedResults a_dataset a_history = Returned acc)
  ∧ lastViewedStep a_dataset [result_of (an_item "c1" component None) r1]
      (viewed "o1" "r1")
    = Thrown ReadIdOfUndefined.
Proof.
  destruct (lastViewed_needs_parents a_dataset a_history) as [Htotal Hthrow].
  split.
  - apply Htotal; [apply a_history_parents|apply a_history_plain].
  - destruct (Hthrow [result_of (an_item "c1" component None) r1] (viewed "o1" "r1")
                r1 (default ∅ (index r1)) (an_item "o1" story (Some "gone")) "gone")
      as [_ H]; [by vm_compute | reflexivity | reflexivity | by vm_compute
                | reflexivity |].
    rewrite H. reflexivity.
Defined.

(** * Further properties *)

(** ** The filter, beyond the claims *)

Lemma distinct_from_sublist (ms : list SearchResult) (S : gset string) :
  fst (distinct_from S ms) `sublist_of` ms.
Proof.
  revert S. induction ms as [|m ms IH]; intros S; [done|].
  destruct (negb (searchable (type (item m))) || has_parent S (parent (item m)))
    eqn:E.
  - rewrite distinct_from_skip by done. by apply sublist_cons.
  - rewrite distinct_from_keep by done. simpl. by apply sublist_skip.
Qed.

Lemma distinct_from_again (ms : list SearchResult) (S : gset string) :
  fst (distinct_from S (fst (distinct_from S ms))) = fst (distinct_from S ms).
Proof.
  revert S. induction ms as [|m ms IH]; intros S; [done|].
  destruct (negb (searchable (type (item m))) || has_parent S (parent (item m)))
    eqn:E.
  - rewrite distinct_from_skip by done. apply IH.
  - rewrite distinct_from_keep by done. cbn [fst].
    rewrite distinct_from_keep by done. cbn [fst]. f_equal. apply IH.
Qed.

(** X1: filtering the filtered matches again changes nothing. *)
Theorem distinctResults_idempotent (ms : list SearchResult) :
  distinctResults (distinctResults ms) = distinctResults ms.
Proof. apply distinct_from_again. Qed.

Lemma result_items_closed (shown : list SearchResult) (marker : list ExpandType) :
  result_items ((ResultItem <$> shown) ++ (ExpandItem <$> marker)) = shown.
Proof.
  unfold result_items. rewrite omap_app.
  assert (H1 : omap (λ x, isSearchResult (Some x)) (ResultItem <$> shown) = shown).
  { induction shown as [|r shown IH]; [done|]. simpl. f_equal. exact IH. }
  assert (H2 : omap (λ x, isSearchResult (Some x)) (ExpandItem <$> marker) = []).
  { induction marker as [|e marker IH]; [done|]. simpl. exact IH. }
  by rewrite H1, H2, app_nil_r.
Qed.

(** X2: the search results [getResults] returns are matches the fuzzy
    index gave for that input, in the order it ranked them: nothing is
    invented, repeated or reordered. *)
Theorem getResults_sublist_of_matches
    (fuse : ustring → list SearchResult) (allComponents : bool) (input : ustring)
    (results : list DownshiftItem) :
  outcome (getResults fuse allComponents input) = Returned results →
  result_items results `prefix_of` distinctResults (fuse input)
  ∧ result_items results `sublist_of` fuse input.
Proof.
  destruct (truthyStr input) eqn:Hin.
  - rewrite getResults_search by done. intros [= <-].
    rewrite result_items_closed.
    split; [apply prefix_take|].
    etrans; [apply sublist_take|]. apply distinct_from_sublist.
  - destruct input; [|done]. rewrite getResults_empty. intros [= <-].
    split; [apply prefix_nil|apply sublist_nil_l].
Qed.

Lemma getResults_sublist_of_matches_witness :
  result_items [ResultItem button_component]
    `prefix_of` distinctResults [button_component; story_of "button--primary" "button"]
  ∧ result_items [ResultItem button_component]
    `sublist_of` [button_component; story_of "button--primary" "button"].
Proof.
  apply (getResults_sublist_of_matches
           (λ _, [button_component; story_of "button--primary" "button"])
           false [98%N] [ResultItem button_component]).
  by vm_compute.
Defined.

Lemma distinct_from_no_parents (ms : list SearchResult) (S : gset string) :
  (∀ m p, m ∈ ms → parent (item m) = Some p → (p ∉ S) ∧ (p ∉ ids ms)) →
  fst (distinct_from S ms) = keep_searchable ms.
Proof.
  revert S. induction ms as [|m ms IH]; intros S H; [done|].
  unfold keep_searchable. rewrite filter_cons.
  assert (Hrest : ∀ S', (∀ p, p ∈ S' → p ∈ S ∨ p = id (item m)) →
                        fst (distinct_from S' ms) = keep_searchable ms).
  { intros S' HS'. apply IH. intros m' p Hm' Hp.
    destruct (H m' p (list_elem_of_further _ _ _ Hm') Hp) as [HnS Hnids].
    unfold ids in Hnids. rewrite fmap_cons, not_elem_of_cons in Hnids.
    destruct Hnids as [Hne Hnids]. split; [|done].
    intros [?| ->]%HS'; done. }
  assert (Hpar : has_parent S (parent (item m)) = false).
  { apply has_parent_false. intros q Hq. by apply (H m q (list_elem_of_here _ _)). }
  destruct (searchable (type (item m))) eqn:Et.
  - rewrite decide_True by done.
    rewrite distinct_from_keep by (by rewrite Et, Hpar). cbn [fst]. f_equal.
    apply Hrest. set_solver.
  - rewrite decide_False by done.
    rewrite distinct_from_skip by (by rewrite Et). apply Hrest. by left.
Qed.

(** X3: when no match is the child of another match (no match's parent id
    is the id of a match), the filter only drops the groups and roots. *)
Theorem distinctResults_without_children (ms : list SearchResult) :
  (∀ m m', m ∈ ms → m' ∈ ms → parent (item m) ≠ Some (id (item m'))) →
  distinctResults ms = keep_searchable ms.
Proof.
  intros H. apply distinct_from_no_parents. intros m p Hm Hp.
  split; [set_solver|].
  intros (m' & -> & Hm')%list_elem_of_fmap. by apply (H m m').
Qed.

Lemma distinctResults_without_children_witness :
  distinctResults (two_stories []) = keep_searchable (two_stories []).
Proof.
  apply distinctResults_without_children.
  intros m m' Hm Hm'. unfold two_stories in Hm, Hm'.
  repeat (apply elem_of_cons in Hm as [->|Hm]); try (by apply elem_of_nil in Hm);
    repeat (apply elem_of_cons in Hm' as [->|Hm']); try (by apply elem_of_nil in Hm');
    intros H; vm_compute in H; discriminate H.
Defined.

(** X4: a searchable match whose item has no parent is never dropped. *)
Theorem distinctResults_keeps_parentless (ms : list SearchResult) (m : SearchResult) :
  m ∈ ms →
  searchable (type (item m)) = true →
  parent (item m) = None →
  m ∈ distinctResults ms.
Proof.
  intros Hm Ht Hp. unfold distinctResults. generalize (∅ : gset string).
  induction ms as [|m0 ms IH]; intros S; [by apply elem_of_nil in Hm|].
  destruct (negb (searchable (type (item m0))) || has_parent S (parent (item m0)))
    eqn:E.
  - rewrite distinct_from_skip by done.
    apply elem_of_cons in Hm as [->|Hm]; [|by apply IH].
    by rewrite Ht, Hp in E.
  - rewrite distinct_from_keep by done. cbn [fst].
    apply elem_of_cons in Hm as [->|Hm]; [by left|]. right. by apply IH.
Qed.

Lemma distinctResults_keeps_parentless_witness :
  button_component
    ∈ distinctResults [story_of "button--primary" "button"; button_component].
Proof.
  apply distinctResults_keeps_parentless; [|reflexivity|reflexivity].
  right. left.
Defined.

(** ** The cap and the marker, beyond the claims *)

Lemma getResults_search_all (fuse : ustring → list SearchResult) (input : ustring) :
  truthyStr input = true →
  getResults fuse true input =
    ([FuseSearch input],
     Returned (ResultItem <$> take 1000 (distinctResults (fuse input)))).
Proof.
  intros Hin. rewrite getResults_search by done.
  unfold markers. rewrite andb_false_r. simpl. by rewrite app_nil_r.
Qed.

(** X5: with "show all" set there is never a marker: the results are the
    first 1000 distinct matches and nothing else, so that matches beyond the
    thousandth are dropped without a trace. *)
Theorem getResults_show_all
    (fuse : ustring → list SearchResult) (input : ustring) :
  truthyStr input = true →
  ∃ results,
    outcome (getResults fuse true input) = Returned results
    ∧ results = ResultItem <$> take 1000 (distinctResults (fuse input))
    ∧ length results = (1000 `min` length (distinctResults (fuse input)))%nat
    ∧ ∀ e, ExpandItem e ∉ results.
Proof.
  intros Hin. eexists. rewrite getResults_search_all by done.
  split; [reflexivity|]. split; [reflexivity|]. split.
  - by rewrite length_fmap, length_take.
  - intros e (r & [=] & _)%list_elem_of_fmap.
Qed.

Lemma getResults_show_all_witness :
  ∃ results,
    outcome (getResults sixty_components true [98%N]) = Returned results
    ∧ results = ResultItem <$> take 1000 (distinctResults (sixty_components [98%N]))
    ∧ length results
      = (1000 `min` length (distinctResults (sixty_components [98%N])))%nat
    ∧ ∀ e, ExpandItem e ∉ results.
Proof. apply (getResults_show_all sixty_components [98%N]). reflexivity. Defined.

(** X6: a marker in the results of [getResults] is always the entry at
    index 50 and the last of 51, after 50 search results, with "show all"
    not set; its counts add up: [totalCount] is 50 more than [moreCount],
    which is positive. *)
Theorem getResults_marker_place
    (fuse : ustring → list SearchResult) (allComponents : bool) (input : ustring)
    (results : list DownshiftItem) (i : nat) (e : ExpandType) :
  outcome (getResults fuse allComponents input) = Returned results →
  results !! i = Some (ExpandItem e) →
  i = 50%nat
  ∧ length results = 51%nat
  ∧ length (result_items results) = 50%nat
  ∧ allComponents = false
  ∧ totalCount e = 50 + moreCount e
  ∧ 0 < moreCount e.
Proof.
  destruct (truthyStr input) eqn:Hin.
  - rewrite getResults_search by done. intros [= <-] Hi.
    rewrite result_items_closed, length_app, !length_fmap.
    apply lookup_app_Some in Hi as [Hi | [Hge Hi]].
    { rewrite list_lookup_fmap in Hi. by destruct (take _ _ !! i). }
    rewrite length_fmap in Hge, Hi. rewrite list_lookup_fmap in Hi.
    apply fmap_Some in Hi as (e' & Hi & [= <-]).
    revert Hge Hi. rewrite length_take.
    unfold markers, cap, DEFAULT_MAX_SEARCH_RESULTS.
    destruct (Nat.ltb_spec 50 (length (distinctResults (fuse input)))) as [Hlt|Hle];
      destruct allComponents; cbn [andb negb]; intros Hge Hi;
      try (by rewrite lookup_nil in Hi).
    rewrite Nat.min_l in Hge, Hi |- * by lia.
    apply list_lookup_singleton_Some in Hi as [Hi <-].
    cbn [length totalCount moreCount]. repeat split; lia.
  - destruct input; [|done]. rewrite getResults_empty. by intros [= <-].
Qed.

Lemma getResults_marker_place_witness :
  50%nat = 50%nat
  ∧ length ((ResultItem <$> (component_of <$> seq 0 50)) ++ [ExpandItem sixty_marker])
    = 51%nat
  ∧ length (result_items ((ResultItem <$> (component_of <$> seq 0 50))
                          ++ [ExpandItem sixty_marker])) = 50%nat
  ∧ false = false
  ∧ totalCount sixty_marker = 50 + moreCount sixty_marker
  ∧ 0 < moreCount sixty_marker.
Proof.
  apply (getResults_marker_place sixty_components false [98%N]
           ((ResultItem <$> (component_of <$> seq 0 50)) ++ [ExpandItem sixty_marker])
           50 sixty_marker).
  - by vm_compute.
  - by vm_compute.
Defined.

(** X7: expanding only adds: the search results shown before "show all" is
    set are the first of those shown after, and after it every distinct
    match is shown when there are at most 1000. *)
Theorem getResults_expand_extends
    (fuse : ustring → list SearchResult) (input : ustring)
    (before after : list DownshiftItem) :
  outcome (getResults fuse false input) = Returned before →
  outcome (getResults fuse true input) = Returned after →
  (ResultItem <$> result_items before) `prefix_of` after
  ∧ ((length (distinctResults (fuse input)) ≤ 1000)%nat →
     truthyStr input = true →
     after = ResultItem <$> distinctResults (fuse input)).
Proof.
  destruct (truthyStr input) eqn:Hin.
  - rewrite getResults_search_all, (getResults_search fuse false) by done.
    intros [= <-] [= <-]. rewrite result_items_closed. split.
    + unfold cap, DEFAULT_MAX_SEARCH_RESULTS.
      replace (take 50 (distinctResults (fuse input)))
        with (take 50 (take 1000 (distinctResults (fuse input))))
        by (rewrite take_take; f_equal; lia).
      rewrite fmap_take. apply prefix_take.
    + intros Hle _. by rewrite take_ge.
  - destruct input; [|done]. rewrite !getResults_empty. intros [= <-] [= <-].
    split; [apply prefix_nil|done].
Qed.

Lemma getResults_expand_extends_witness :
  (ResultItem <$> result_items ((ResultItem <$> (component_of <$> seq 0 50))
                                ++ [ExpandItem sixty_marker]))
    `prefix_of` (ResultItem <$> (component_of <$> seq 0 60)).
Proof.
  apply (getResults_expand_extends sixty_components [98%N]
           ((ResultItem <$> (component_of <$> seq 0 50)) ++ [ExpandItem sixty_marker])
           (ResultItem <$> (component_of <$> seq 0 60))).
  - by vm_compute.
  - by vm_compute.
Defined.

(** ** The reducer, beyond the claims *)

(** The reducer where it has no case: the proposal comes back as it is. *)
Lemma stateReducer_no_case (cb : string → string → M unit)
    (state : DownshiftState) (changes : StateChangeOptions) :
  (∀ t, change_type changes = Some t → overridden t = false)
  ∨ ((change_type changes = Some clickItem ∨ change_type changes = Some keyDownEnter)
     ∧ changes_selectedItem changes = None) →
  stateReducer cb state changes = ([], Returned changes).
Proof.
  intros [H | [Ht Hs]]; unfold stateReducer.
  - destruct (change_type changes) as [t|] eqn:Et; [|reflexivity].
    pose proof (H t eq_refl) as Ho. destruct t; try discriminate Ho; reflexivity.
  - destruct Ht as [Ht|Ht]; rewrite Ht, Hs; reflexivity.
Qed.

(** X8: for a change whose type the reducer has no case for (or that has no
    type), and for a click or Enter with nothing selected, the reducer hands
    the container's proposal back untouched and does nothing else. *)
Theorem stateReducer_passes_through (cb : string → string → M unit)
    (state : DownshiftState) (changes : StateChangeOptions) :
  (∀ t, change_type changes = Some t → overridden t = false)
  ∨ ((change_type changes = Some clickItem ∨ change_type changes = Some keyDownEnter)
     ∧ changes_selectedItem changes = None) →
  stateReducer cb state changes = ([], Returned changes).
Proof.
  unfold stateReducer. intros [H | [[Ht|Ht] Hs]].
  - destruct (change_type changes) as [t|]; [|done].
    specialize (H t eq_refl). by destruct t.
  - by rewrite Ht, Hs.
  - by rewrite Ht, Hs.
Qed.

Lemma stateReducer_passes_through_witness :
  stateReducer (selectStory "storybook_internal" None) typed_state
    {| change_type := Some keyDownArrowDown; c_highlightedIndex := Some (Some 1%nat);
       c_inputValue := None; c_isOpen := Some (FlagBool true);
       c_selectedItem := None |}
  = ([], Returned {| change_type := Some keyDownArrowDown;
                     c_highlightedIndex := Some (Some 1%nat);
                     c_inputValue := None; c_isOpen := Some (FlagBool true);
                     c_selectedItem := None |}).
Proof.
  apply stateReducer_passes_through. left. intros t [= <-]. reflexivity.
Defined.

(** X9: on blur, on mouse-up, and on a click or Enter with an item selected
    (result or marker), the text of the input after the change is the text
    before it, whatever text the container proposed. *)
Theorem stateReducer_keeps_text (cb : string → string → M unit)
    (state : DownshiftState) (changes changes' : StateChangeOptions) :
  change_type changes = Some blurInput
  ∨ change_type changes = Some mouseUp
  ∨ ((change_type changes = Some clickItem ∨ change_type changes = Some keyDownEnter)
     ∧ is_Some (changes_selectedItem changes)) →
  outcome (stateReducer cb state changes) = Returned changes' →
  inputValue (applyChanges state changes') = inputValue state.
Proof.
  intros [Ht | [Ht | [Ht [x Hs]]]].
  - unfold stateReducer. rewrite Ht. by intros [= <-].
  - unfold stateReducer. rewrite Ht. by intros [= <-].
  - destruct x as [r|e].
    + rewrite (stateReducer_on_result _ _ _ _ Ht Hs).
      destruct (cb (id (item r)) (refId (item r))) as [es [[]|x|b]]; simpl; [|done|done].
      by intros [= <-].
    + rewrite (stateReducer_on_marker _ _ _ _ Ht Hs).
      destruct (showAll e) as [es [[]|x|b]]; simpl; [|done|done].
      by intros [= <-].
Qed.

Lemma stateReducer_keeps_text_witness :
  inputValue
    (applyChanges typed_state
       {| change_type := Some blurInput; c_highlightedIndex := Some None;
          c_inputValue := Some (Some [97%N; 98%N]);
          c_isOpen := Some (FlagBool true); c_selectedItem := Some None |})
  = inputValue typed_state.
Proof.
  apply (stateReducer_keeps_text (selectStory "storybook_internal" None) typed_state
           {| change_type := Some blurInput; c_highlightedIndex := Some None;
              c_inputValue := Some (Some []); c_isOpen := Some (FlagBool false);
              c_selectedItem := Some None |}).
  - by left.
  - reflexivity.
Defined.

(** X10: on blur the reducer does nothing to the outside, clears the
    selection, and leaves the list open exactly when the input has text and
    no item was selected; the highlighted index is the container's. *)
Theorem stateReducer_blur (cb : string → string → M unit)
    (state : DownshiftState) (changes : StateChangeOptions) :
  change_type changes = Some blurInput →
  ∃ changes',
    stateReducer cb state changes = ([], Returned changes')
    ∧ selectedItem (applyChanges state changes') = None
    ∧ truthyFlag (isOpen (applyChanges state changes'))
      = truthyOptStr (inputValue state)
        && negb (bool_decide (is_Some (selectedItem state)))
    ∧ highlightedIndex (applyChanges state changes')
      = default (highlightedIndex state) (c_highlightedIndex changes).
Proof.
  intros Ht. unfold stateReducer. rewrite Ht. eexists.
  split; [reflexivity|]. split; [reflexivity|]. split; [|reflexivity].
  simpl. unfold blur_isOpen.
  destruct (inputValue state) as [[|c s]|]; reflexivity.
Qed.

Lemma stateReducer_blur_witness :
  ∃ changes',
    stateReducer (selectStory "storybook_internal" None) typed_state
      {| change_type := Some blurInput; c_highlightedIndex := Some None;
         c_inputValue := Some (Some []); c_isOpen := Some (FlagBool false);
         c_selectedItem := Some None |}
    = ([], Returned changes')
    ∧ selectedItem (applyChanges typed_state changes') = None
    ∧ truthyFlag (isOpen (applyChanges typed_state changes')) = true
    ∧ highlightedIndex (applyChanges typed_state changes') = None.
Proof.
  apply (stateReducer_blur (selectStory "storybook_internal" None) typed_state
           {| change_type := Some blurInput; c_highlightedIndex := Some None;
              c_inputValue := Some (Some []); c_isOpen := Some (FlagBool false);
              c_selectedItem := Some None |}).
  reflexivity.
Defined.

(** X11: after a search result is chosen (click or Enter) and the input
    then loses the focus, the list is closed, nothing is selected, and the
    text is still the one typed: the two overrides together "return to the
    tree view, but keep the input value". *)
Theorem stateReducer_select_then_blur (cb : string → string → M unit)
    (state : DownshiftState) (chosen blurred selected : StateChangeOptions)
    (r : SearchResult) :
  change_type chosen = Some clickItem ∨ change_type chosen = Some keyDownEnter →
  c_selectedItem chosen = Some (Some (ResultItem r)) →
  outcome (stateReducer cb state chosen) = Returned selected →
  change_type blurred = Some blurInput →
  ∃ final,
    stateReducer cb (applyChanges state selected) blurred = ([], Returned final)
    ∧ inputValue (applyChanges (applyChanges state selected) final) = inputValue state
    ∧ truthyFlag (isOpen (applyChanges (applyChanges state selected) final)) = false
    ∧ selectedItem (applyChanges (applyChanges state selected) final) = None.
Proof.
  intros Ht Hs Hsel Hb.
  assert (Hs' : changes_selectedItem chosen = Some (ResultItem r))
    by (unfold changes_selectedItem; by rewrite Hs).
  rewrite (stateReducer_on_result _ _ _ _ Ht Hs') in Hsel.
  destruct (cb (id (item r)) (refId (item r))) as [es [[]|x|b]]; simpl in Hsel; [|done|done].
  injection Hsel as <-.
  unfold stateReducer at 1. rewrite Hb. eexists. split; [reflexivity|].
  split; [reflexivity|]. split; [|reflexivity].
  simpl. unfold blur_isOpen. simpl. rewrite Hs. simpl.
  destruct (inputValue state) as [[|c s]|]; reflexivity.
Qed.

Lemma stateReducer_select_then_blur_witness :
  ∃ final,
    stateReducer (selectStory "storybook_internal" (Some HostApi))
      (applyChanges typed_state
         {| change_type := Some keyDownEnter; c_highlightedIndex := Some None;
            c_inputValue := Some (Some [97%N; 98%N]);
            c_isOpen := Some (FlagBool false);
            c_selectedItem := Some (Some (ResultItem btn_primary)) |})
      {| change_type := Some blurInput; c_highlightedIndex := Some None;
         c_inputValue := Some (Some []); c_isOpen := Some (FlagBool false);
         c_selectedItem := Some None |}
    = ([], Returned final)
    ∧ inputValue
        (applyChanges
           (applyChanges typed_state
              {| change_type := Some keyDownEnter; c_highlightedIndex := Some None;
                 c_inputValue := Some (Some [97%N; 98%N]);
                 c_isOpen := Some (FlagBool false);
                 c_selectedItem := Some (Some (ResultItem btn_primary)) |})
           final)
      = inputValue typed_state
    ∧ truthyFlag
        (isOpen
           (applyChanges
              (applyChanges typed_state
                 {| change_type := Some keyDownEnter; c_highlightedIndex := Some None;
                    c_inputValue := Some (Some [97%N; 98%N]);
                    c_isOpen := Some (FlagBool false);
                    c_selectedItem := Some (Some (ResultItem btn_primary)) |})
              final))
      = false
    ∧ selectedItem
        (applyChanges
           (applyChanges typed_state
              {| change_type := Some keyDownEnter; c_highlightedIndex := Some None;
                 c_inputValue := Some (Some [97%N; 98%N]);
                 c_isOpen := Some (FlagBool false);
                 c_selectedItem := Some (Some (ResultItem btn_primary)) |})
           final)
      = None.
Proof.
  apply (stateReducer_select_then_blur
           (selectStory "storybook_internal" (Some HostApi)) typed_state
           (enter_on (ResultItem btn_primary))
           {| change_type := Some blurInput; c_highlightedIndex := Some None;
              c_inputValue := Some (Some []); c_isOpen := Some (FlagBool false);
              c_selectedItem := Some None |}
           _ btn_primary).
  - by right.
  - reflexivity.
  - reflexivity.
  - reflexivity.
Defined.

(** X12: with the component's own [selectStory], and markers whose action
    is the one [getResults] gives them, the reducer never throws, whatever
    the change and whether or not there is a host API; and it asks the host
    to navigate only on a click or Enter with a search result selected, for
    that result's id, once. *)
Theorem stateReducer_safe (D : string) (api : option API)
    (state : DownshiftState) (changes : StateChangeOptions) :
  (∀ e, changes_selectedItem changes = Some (ExpandItem e) →
        showAll e = emit (ShowAllComponents true)) →
  (∃ changes', outcome (stateReducer (selectStory D api) state changes)
               = Returned changes')
  ∧ ∀ s ref,
      ApiSelectStory s ref ∈ effects (stateReducer (selectStory D api) state changes) →
      (change_type changes = Some clickItem ∨ change_type changes = Some keyDownEnter)
      ∧ api = Some HostApi
      ∧ ∃ r, changes_selectedItem changes = Some (ResultItem r)
             ∧ s = id (item r)
             ∧ effects (stateReducer (selectStory D api) state changes)
               = [ApiSelectStory s ref; Blur; ShowAllComponents false].
Proof.
  intros Hmarker.
  assert (Hselect : ∀ r,
    change_type changes = Some clickItem ∨ change_type changes = Some keyDownEnter →
    changes_selectedItem changes = Some (ResultItem r) →
    (∃ changes', outcome (stateReducer (selectStory D api) state changes)
                 = Returned changes')
    ∧ ∀ s ref,
        ApiSelectStory s ref ∈ effects (stateReducer (selectStory D api) state changes) →
        api = Some HostApi
        ∧ s = id (item r)
        ∧ effects (stateReducer (selectStory D api) state changes)
          = [ApiSelectStory s ref; Blur; ShowAllComponents false]).
  { intros r Ht Hs. rewrite (stateReducer_on_result _ _ _ _ Ht Hs).
    destruct api as [[]|].
    - rewrite selectStory_with_api. split; [by eexists|].
      intros s ref. simpl.
      rewrite !elem_of_cons, elem_of_nil. intros [[= -> ->]|[[=]|[[=]|[]]]]. done.
    - rewrite selectStory_no_api. split; [by eexists|].
      intros s ref. simpl.
      rewrite !elem_of_cons, elem_of_nil. intros [[=]|[[=]|[]]]. }
  assert (Hexpand : ∀ e,
    change_type changes = Some clickItem ∨ change_type changes = Some keyDownEnter →
    changes_selectedItem changes = Some (ExpandItem e) →
    stateReducer (selectStory D api) state changes
    = ([ShowAllComponents true], Returned no_changes)).
  { intros e Ht Hs. rewrite (stateReducer_on_marker _ _ _ _ Ht Hs).
    by rewrite (Hmarker e Hs). }
  assert (Hquiet : ∀ changes' es,
    stateReducer (selectStory D api) state changes = (es, Returned changes') →
    (∀ s ref, ApiSelectStory s ref ∉ es) →
    (∃ changes', outcome (stateReducer (selectStory D api) state changes)
                 = Returned changes')
    ∧ ∀ s ref,
        ApiSelectStory s ref ∈ effects (stateReducer (selectStory D api) state changes) →
        (change_type changes = Some clickItem ∨ change_type changes = Some keyDownEnter)
        ∧ api = Some HostApi
        ∧ ∃ r, changes_selectedItem changes = Some (ResultItem r)
               ∧ s = id (item r)
               ∧ effects (stateReducer (selectStory D api) state changes)
                 = [ApiSelectStory s ref; Blur; ShowAllComponents false]).
  { intros changes' es -> Hno. split; [by eexists|].
    intros s ref Hin. by destruct (Hno s ref). }
  assert (Hclick :
    change_type changes = Some clickItem ∨ change_type changes = Some keyDownEnter →
    (∃ changes', outcome (stateReducer (selectStory D api) state changes)
                 = Returned changes')
    ∧ ∀ s ref,
        ApiSelectStory s ref ∈ effects (stateReducer (selectStory D api) state changes) →
        (change_type changes = Some clickItem ∨ change_type changes = Some keyDownEnter)
        ∧ api = Some HostApi
        ∧ ∃ r, changes_selectedItem changes = Some (ResultItem r)
               ∧ s = id (item r)
               ∧ effects (stateReducer (selectStory D api) state changes)
                 = [ApiSelectStory s ref; Blur; ShowAllComponents false]).
  { intros Ht. destruct (changes_selectedItem changes) as [[r|e]|] eqn:Hs.
    - destruct (Hselect r Ht eq_refl) as [Hret Hnav]. split; [done|].
      intros s ref Hin. destruct (Hnav s ref Hin) as (? & ? & ?).
      split; [done|]. split; [done|]. by exists r.
    - eapply Hquiet; [by apply (Hexpand e)|].
      intros s ref. rewrite elem_of_cons, elem_of_nil. by intros [[=]|[]].
    - eapply Hquiet.
      + apply stateReducer_no_case. right. by split.
      + intros s ref. by intros ?%elem_of_nil. }
  destruct (change_type changes) as [t|] eqn:Ht.
  - destruct (overridden t) eqn:Ho.
    + destruct t; try discriminate Ho.
      * eapply Hquiet; [unfold stateReducer; by rewrite Ht|].
        intros s ref. by intros ?%elem_of_nil.
      * unfold stateReducer. rewrite Ht.
        destruct (truthyOptStr (inputValue state)).
        -- split; [by eexists|]. intros s ref. by intros ?%elem_of_nil.
        -- split; [by eexists|]. intros s ref. simpl.
           rewrite elem_of_cons, elem_of_nil. by intros [[=]|[]].
      * apply Hclick. by right.
      * apply Hclick. by left.
      * eapply Hquiet; [unfold stateReducer; by rewrite Ht|].
        intros s ref. by intros ?%elem_of_nil.
      * unfold stateReducer. rewrite Ht.
        split; [by eexists|]. intros s ref. simpl.
        rewrite elem_of_cons, elem_of_nil. by intros [[=]|[]].
    + eapply Hquiet.
      * apply stateReducer_no_case. left.
        intros t' Ht'. rewrite Ht in Ht'. by injection Ht' as <-.
      * intros s ref. by intros ?%elem_of_nil.
  - eapply Hquiet.
    + apply stateReducer_no_case. left.
      intros t Ht'. by rewrite Ht in Ht'.
    + intros s ref. by intros ?%elem_of_nil.
Qed.

Lemma stateReducer_safe_witness :
  ∃ changes',
    outcome (stateReducer (selectStory "storybook_internal" None) typed_state
               (enter_on (ExpandItem sixty_marker)))
    = Returned changes'.
Proof.
  destruct (stateReducer_safe "storybook_internal" None typed_state
              (enter_on (ExpandItem sixty_marker))) as [H _].
  - intros e [= <-]. reflexivity.
  - exact H.
Defined.

(** X13: typing undoes the expansion: on a change of the input the reducer
    resets "show all" and hands the container's proposal back untouched, so
    that the next results are capped at 50 again, with the marker back when
    there are more. *)
Theorem stateReducer_typing_collapses (cb : string → string → M unit)
    (state : DownshiftState) (changes : StateChangeOptions) (w : World)
    (fuse : ustring → list SearchResult) (input : ustring) :
  change_type changes = Some changeInput →
  stateReducer cb state changes = ([ShowAllComponents false], Returned changes)
  ∧ allComponents (run w (effects (stateReducer cb state changes))) = false
  ∧ focused (run w (effects (stateReducer cb state changes))) = focused w
  ∧ ((50 < length (distinctResults (fuse input)))%nat → truthyStr input = true →
     ∃ results e,
       outcome (getResults fuse
                  (allComponents (run w (effects (stateReducer cb state changes))))
                  input)
       = Returned (results ++ [ExpandItem e])
       ∧ length results = 50%nat).
Proof.
  intros Ht.
  assert (Heq : stateReducer cb state changes
                = ([ShowAllComponents false], Returned changes))
    by (unfold stateReducer; by rewrite Ht).
  rewrite Heq. split; [done|]. split; [done|]. split; [done|].
  intros Hlen Hin. simpl. rewrite getResults_search by done.
  unfold markers, cap, DEFAULT_MAX_SEARCH_RESULTS.
  destruct (Nat.ltb_spec 50 (length (distinctResults (fuse input)))); [|lia].
  cbn [andb negb fmap list_fmap]. do 2 eexists. split; [reflexivity|].
  rewrite length_fmap, length_take. lia.
Qed.

Lemma stateReducer_typing_collapses_witness :
  stateReducer (selectStory "storybook_internal" None) typed_state
    {| change_type := Some changeInput; c_highlightedIndex := None;
       c_inputValue := Some (Some [97%N; 98%N; 99%N]); c_isOpen := Some (FlagBool true);
       c_selectedItem := Some None |}
  = ([ShowAllComponents false],
     Returned {| change_type := Some changeInput; c_highlightedIndex := None;
                 c_inputValue := Some (Some [97%N; 98%N; 99%N]);
                 c_isOpen := Some (FlagBool true); c_selectedItem := Some None |})
  ∧ ∃ results e,
      outcome (getResults sixty_components false [97%N; 98%N; 99%N])
      = Returned (results ++ [ExpandItem e])
      ∧ length results = 50%nat.
Proof.
  destruct (stateReducer_typing_collapses (selectStory "storybook_internal" None)
              typed_state
              {| change_type := Some changeInput; c_highlightedIndex := None;
                 c_inputValue := Some (Some [97%N; 98%N; 99%N]);
                 c_isOpen := Some (FlagBool true); c_selectedItem := Some None |}
              a_world sixty_components [97%N; 98%N; 99%N]) as (H1 & _ & _ & H2);
    [reflexivity|].
  split; [exact H1|]. apply H2; [vm_compute; lia|reflexivity].
Defined.

(** ** The render, beyond the claims *)

Lemma trimStart_head (s : ustring) (c : N) :
  head (trimStart s) = Some c → isWhiteSpace c = false.
Proof.
  induction s as [|c0 s IH]; simpl; [done|].
  destruct (isWhiteSpace c0) eqn:E; [done|].
  simpl. by intros [= <-].
Qed.

(** What [trimStart] removes is white space, from the front. *)
Lemma trimStart_suffix (s : ustring) :
  ∃ p, s = p ++ trimStart s ∧ forallb isWhiteSpace p = true.
Proof.
  induction s as [|c s (p & IH & Hp)]; [by exists []|]. simpl.
  destruct (isWhiteSpace c) eqn:E.
  - exists (c :: p). simpl. rewrite E, Hp. split; [by f_equal|done].
  - by exists [].
Qed.

Lemma trimStart_nil (s : ustring) :
  trimStart s = [] ↔ forallb isWhiteSpace s = true.
Proof.
  split; [|apply trimStart_whitespace].
  destruct (trimStart_suffix s) as (p & Hs & Hp). intros Hnil.
  rewrite Hnil, app_nil_r in Hs. by subst.
Qed.

Lemma trim_nil (s : ustring) : trim s = [] ↔ forallb isWhiteSpace s = true.
Proof.
  unfold trim, trimEnd. split.
  - intros H. apply (f_equal (@rev N)) in H. rewrite rev_involutive in H.
    simpl in H. apply trimStart_nil in H. rewrite forallb_forall in H.
    apply trimStart_nil.
    destruct (trimStart s) as [|c t] eqn:E; [done|].
    pose proof (trimStart_head s c) as Hc. rewrite E in Hc.
    specialize (Hc eq_refl). rewrite H in Hc; [done|].
    apply in_rev. rewrite rev_involutive. by left.
  - intros H. by rewrite (trimStart_whitespace s H).
Qed.

Lemma last_rev_head (l : ustring) : last (rev l) = head l.
Proof. destruct l as [|c l]; [done|]. simpl. apply last_snoc. Qed.

Lemma trim_ends (s : ustring) (c : N) :
  head (trim s) = Some c ∨ last (trim s) = Some c → isWhiteSpace c = false.
Proof.
  unfold trim, trimEnd. set (t := trimStart s).
  destruct (trimStart_suffix (rev t)) as (p & Hrev & Hp).
  intros [Hh|Hl].
  - assert (Ht : t = rev (trimStart (rev t)) ++ rev p).
    { rewrite <- rev_app_distr, <- Hrev. by rewrite rev_involutive. }
    destruct (rev (trimStart (rev t))) as [|c0 u] eqn:E; [done|].
    simpl in Hh. injection Hh as ->.
    apply (trimStart_head s). fold t. by rewrite Ht.
  - apply (trimStart_head (rev t)). by rewrite <- last_rev_head.
Qed.

Lemma query_with_text (s : ustring) :
  existsb (λ c, negb (isWhiteSpace c)) s = true →
  query (Some s) = trim s ∧ truthyStr (trim s) = true.
Proof.
  intros H. simpl.
  assert (Hs : truthyStr s = true) by (by destruct s).
  rewrite Hs. split; [done|].
  destruct (trim s) eqn:E; [|done].
  apply trim_nil in E. apply existsb_exists in H as (c & Hc & Hw).
  rewrite forallb_forall in E. by rewrite (E c Hc) in Hw.
Qed.

(** X14: when the input value holds a code unit that is not white space,
    the render is one search of the fuzzy index with the trimmed value, and
    its results are those of [getResults]: the last-viewed history and the
    dataset play no part. *)
Theorem searchResults_with_text
    (fuse : ustring → list SearchResult) (allComponents : bool)
    (dataset : CombinedDataset) (getLastViewed : list Selection) (s : ustring) :
  existsb (λ c, negb (isWhiteSpace c)) s = true →
  searchResults fuse allComponents dataset getLastViewed (Some s)
    = getResults fuse allComponents (trim s)
  ∧ effects (searchResults fuse allComponents dataset getLastViewed (Some s))
    = [FuseSearch (trim s)].
Proof.
  intros H. destruct (query_with_text s H) as [Hq Ht].
  rewrite searchResults_by_query, Hq, Ht. split; [done|].
  by rewrite getResults_search.
Qed.

Lemma searchResults_with_text_witness :
  searchResults two_stories false a_dataset a_history (Some [32%N; 98%N; 32%N])
    = getResults two_stories false (trim [32%N; 98%N; 32%N])
  ∧ effects (searchResults two_stories false a_dataset a_history
               (Some [32%N; 98%N; 32%N]))
    = [FuseSearch (trim [32%N; 98%N; 32%N])].
Proof. apply searchResults_with_text. reflexivity. Defined.

(** X15: a query handed to the fuzzy index is never empty and never starts
    or ends with white space, and a render searches at most once. *)
Theorem searchResults_query_is_trimmed
    (fuse : ustring → list SearchResult) (allComponents : bool)
    (dataset : CombinedDataset) (getLastViewed : list Selection)
    (value : option ustring) (q : ustring) :
  FuseSearch q ∈ effects (searchResults fuse allComponents dataset getLastViewed value) →
  q ≠ []
  ∧ (∀ c, head q = Some c ∨ last q = Some c → isWhiteSpace c = false)
  ∧ effects (searchResults fuse allComponents dataset getLastViewed value)
    = [FuseSearch q].
Proof.
  rewrite searchResults_by_query.
  destruct (truthyStr (query value)) eqn:Hq.
  - rewrite getResults_search by done. simpl.
    intros [= ->]%list_elem_of_singleton.
    split; [by destruct (query value)|]. split; [|done].
    destruct value as [s|]; [|done]. simpl in *.
    destruct (truthyStr s); [|done]. apply trim_ends.
  - simpl. by intros ?%elem_of_nil.
Qed.

Lemma searchResults_query_is_trimmed_witness :
  [98%N] ≠ []
  ∧ (∀ c, head [98%N] = Some c ∨ last [98%N] = Some c → isWhiteSpace c = false)
  ∧ effects (searchResults two_stories false a_dataset a_history
               (Some [32%N; 98%N; 32%N]))
    = [FuseSearch [98%N]].
Proof.
  apply (searchResults_query_is_trimmed two_stories false a_dataset a_history
           (Some [32%N; 98%N; 32%N]) [98%N]).
  vm_compute. left.
Defined.

(** ** The last-viewed fallback, beyond the claims *)

Lemma reduce_app {A B} (f : A → B → Outcome A) (l1 l2 : list B) (acc : A) :
  reduce f (l1 ++ l2) acc = (acc' ← reduce f l1 acc; reduce f l2 acc').
Proof.
  revert acc. induction l1 as [|x l1 IH]; intros acc; [done|].
  simpl. destruct (f acc x) as [acc1|e|b]; [|done|done]. apply IH.
Qed.

Lemma lastViewedStep_unresolvable (dataset : CombinedDataset)
    (acc : list SearchResult) (sel : Selection) :
  unresolvable dataset sel → lastViewedStep dataset acc sel = Returned acc.
Proof.
  intros H. unfold lastViewedStep.
  destruct (hash dataset !! sel_refId sel) as [data|] eqn:Hd; [|done].
  destruct (index data) as [idx|] eqn:Hi; [|done].
  by rewrite (H data idx Hd Hi).
Qed.

(** X16: a record whose reference is absent or not loaded, or whose story
    id the reference's index neither has an entry for nor inherits, can be
    taken out of the history without changing the outcome, wherever it
    stands and whatever the other records are. *)
Theorem lastViewedResults_skips_unresolvable (dataset : CombinedDataset)
    (before after : list Selection) (sel : Selection) :
  unresolvable dataset sel →
  lastViewedResults dataset (before ++ sel :: after)
  = lastViewedResults dataset (before ++ after).
Proof.
  intros H. unfold lastViewedResults. rewrite !reduce_app.
  destruct (reduce (lastViewedStep dataset) before []) as [acc|e|b]; [|done|done].
  simpl. by rewrite lastViewedStep_unresolvable.
Qed.

Lemma lastViewedResults_skips_unresolvable_witness :
  lastViewedResults a_dataset
    ([viewed "s1" "r1"] ++ viewed "s1" "r9" :: [viewed "d1" "r1"])
  = lastViewedResults a_dataset ([viewed "s1" "r1"] ++ [viewed "d1" "r1"]).
Proof.
  apply lastViewedResults_skips_unresolvable.
  intros data idx Hd. by vm_compute in Hd.
Defined.

Lemma lastViewedStep_grows (dataset : CombinedDataset) (acc acc' : list SearchResult)
    (sel : Selection) :
  lastViewedStep dataset acc sel = Returned acc' →
  acc' = acc ∨ ∃ res, acc' = acc ++ [res] ∧ from_index dataset res.
Proof.
  unfold lastViewedStep.
  destruct (hash dataset !! sel_refId sel) as [data|] eqn:Hd; [|intros [= <-]; by left].
  destruct (index data) as [idx|] eqn:Hi; [|intros [= <-]; by left].
  assert (Hfinal : ∀ it : Property,
    (∀ i, it = Own i → ∃ k, idx !! k = Some i) →
    (some_duplicate acc (sel_refId sel) it ≫= λ dup : bool,
       if dup then Returned acc
       else match it with
            | Own i => Returned (acc ++ [{| item := searchItem i data;
                                            matches := []; score := 0%Q |}])
            | Missing => Thrown SearchItemOfUndefined
            | Inherited k => Unmodelled (SearchItemOfInherited k)
            end) = Returned acc' →
    acc' = acc ∨ ∃ res, acc' = acc ++ [res] ∧ from_index dataset res).
  { intros it Hit.
    destruct (some_duplicate acc (sel_refId sel) it) as [[]|x|x]; simpl;
      [| |done|done].
    - intros [= <-]. by left.
    - destruct it as [i|k|]; [|done|done]. intros [= <-]. right.
      eexists. split; [done|].
      destruct (Hit i eq_refl) as [k Hk].
      by exists (sel_refId sel), data, idx, k, i. }
  destruct (read idx (storyId sel)) as [entry|k|] eqn:He.
  - apply read_Own_inv in He.
    destruct (item_type entry); apply Hfinal;
      try (intros i [= <-]; by exists (storyId sel)).
    intros i Hi'. unfold index_get in Hi'. apply read_Own_inv in Hi'. by eexists.
  - by apply Hfinal.
  - intros [= <-]. by left.
Qed.

Lemma reduce_lastViewed_grows (dataset : CombinedDataset) (history : list Selection)
    (acc acc' : list SearchResult) :
  reduce (lastViewedStep dataset) history acc = Returned acc' →
  ∃ added, acc' = acc ++ added
           ∧ (length added ≤ length history)%nat
           ∧ Forall (from_index dataset) added.
Proof.
  revert acc. induction history as [|sel history IH]; intros acc; simpl.
  - intros [= <-]. exists []. by rewrite app_nil_r.
  - destruct (lastViewedStep dataset acc sel) as [acc1|x|x] eqn:Hstep; [|done|done].
    simpl. intros Hred. destruct (IH _ Hred) as (added & -> & Hlen & Hall).
    destruct (lastViewedStep_grows _ _ _ _ Hstep) as [->|(res & -> & Hres)].
    + exists added. split; [done|]. split; [lia|done].
    + exists (res :: added). rewrite <- app_assoc. split; [done|].
      split; [simpl; lia|]. by constructor.
Qed.

Lemma reads_plain_of_parents (dataset : CombinedDataset) (history : list Selection) :
  stories_have_parents dataset history → story_ids_plain dataset history →
  reads_plain dataset history.
Proof.
  intros Hp Hplain sel data idx Hin Hd Hi. split.
  - by apply (Hplain sel data idx).
  - intros entry p He Ht Hpar Hnone.
    destruct (Hp sel data idx entry Hin) as (p' & Hp' & [it Hit]); [done|done|].
    rewrite Hpar in Hp'. injection Hp' as <-. by rewrite Hnone in Hit.
Qed.

(** X17: on a history no record of which reads a property that an index
    only inherits, when the reduction ends normally there are at most as
    many results as records, and each
    result is an entry of the index of a reference of the dataset, flattened
    for that reference, with score 0 and no matches; none is an expand
    marker. *)
Theorem lastViewedResults_bounded
    (fuse : ustring → list SearchResult) (allComponents : bool)
    (dataset : CombinedDataset) (history : list Selection)
    (acc : list SearchResult) :
  reads_plain dataset history →
  lastViewedResults dataset history = Returned acc →
  (length acc ≤ length history)%nat
  ∧ Forall (from_index dataset) acc
  ∧ outcome (searchResults fuse allComponents dataset history None)
    = Returned (ResultItem <$> acc).
Proof.
  intros _ H. unfold lastViewedResults in H.
  destruct (reduce_lastViewed_grows _ _ _ _ H) as (added & -> & Hlen & Hall).
  split; [done|]. split; [done|].
  rewrite searchResults_by_query. simpl. unfold lastViewedResults. by rewrite H.
Qed.

Lemma lastViewedResults_bounded_witness :
  (length [result_of (an_item "c1" component None) r1;
           result_of (an_item "d1" docs (Some "c1")) r1] ≤ length a_history)%nat
  ∧ Forall (from_index a_dataset)
      [result_of (an_item "c1" component None) r1;
       result_of (an_item "d1" docs (Some "c1")) r1]
  ∧ outcome (searchResults two_stories false a_dataset a_history None)
    = Returned (ResultItem <$> [result_of (an_item "c1" component None) r1;
                                result_of (an_item "d1" docs (Some "c1")) r1]).
Proof.
  apply (lastViewedResults_bounded two_stories false a_dataset a_history).
  - apply reads_plain_of_parents; [apply a_history_parents|apply a_history_plain].
  - by vm_compute.
Defined.

(** A record that resolves: the callback leaves the results alone when
    they hold one for the pair, and appends the wrapped entry otherwise. *)
Lemma lastViewedStep_resolved (dataset : CombinedDataset) (acc : list SearchResult)
    (sel : Selection) (x : Resolved) :
  resolve dataset sel = Some x →
  lastViewedStep dataset acc sel
  = Returned (if has_result acc (sel_refId sel) (item_id x.2) then acc
              else acc ++ [wrap x]).
Proof.
  unfold resolve, lastViewedStep. intros H.
  destruct (hash dataset !! sel_refId sel) as [data|] eqn:Hd; [|done]. simpl in H.
  destruct (index data) as [idx|]; [|done]. simpl in H.
  destruct (idx !! storyId sel) as [entry|] eqn:He; [|done]. simpl in H.
  rewrite (read_own idx (storyId sel) entry He).
  assert (Hfinal : ∀ i : Item,
    (some_duplicate acc (sel_refId sel) (Own i) ≫= λ dup : bool,
       if dup then Returned acc
       else Returned (acc ++ [{| item := searchItem i data;
                                 matches := []; score := 0%Q |}]))
    = Returned (if has_result acc (sel_refId sel) (item_id i) then acc
                else acc ++ [wrap (sel_refId sel, data, i)])).
  { intros i. rewrite some_duplicate_own. simpl.
    by destruct (has_result _ _ _). }
  destruct (item_type entry); try (injection H as <-; apply Hfinal).
  destruct (item_parent entry) as [p|]; [|done]. simpl in H.
  destruct (idx !! p) as [it|] eqn:Hit; [|done]. injection H as <-.
  unfold index_get. simpl. rewrite (read_own idx p it Hit). apply Hfinal.
Qed.

Lemma has_result_app (acc added : list SearchResult) (r i : string) :
  has_result acc r i = true → has_result (acc ++ added) r i = true.
Proof. unfold has_result. rewrite existsb_app. by intros ->. Qed.

(** Once a record that resolves has been reduced, the results hold one for
    its pair, and go on holding it. *)
Lemma reduce_lastViewed_holds (dataset : CombinedDataset) (history : list Selection)
    (acc acc' : list SearchResult) (sel : Selection) (x : Resolved) :
  hash_by_id dataset →
  sel ∈ history →
  resolve dataset sel = Some x →
  reduce (lastViewedStep dataset) history acc = Returned acc' →
  has_result acc' (sel_refId sel) (item_id x.2) = true.
Proof.
  intros Hh Hin Hx Hred.
  apply list_elem_of_split in Hin as (h1 & h2 & ->).
  rewrite reduce_app in Hred.
  destruct (reduce (lastViewedStep dataset) h1 acc) as [acc1|e|b]; [|done|done].
  simpl in Hred. rewrite (lastViewedStep_resolved _ _ _ _ Hx) in Hred.
  simpl in Hred.
  destruct (reduce_lastViewed_grows _ _ _ _ Hred) as (added & -> & _).
  apply has_result_app.
  destruct (has_result acc1 (sel_refId sel) (item_id x.2)) eqn:Hhas; [done|].
  unfold has_result. rewrite existsb_app. apply orb_true_iff. right. simpl.
  destruct (resolve_from_dataset _ _ _ Hx) as [Hfrom Hr].
  unfold from_dataset in Hfrom. rewrite (Hh _ _ Hfrom), Hr.
  by rewrite !bool_decide_eq_true_2.
Qed.

(** X18: on a dataset that looks references up by their id and in which the
    stories of the history have their parents, a record that resolves to the
    same reference and item as an earlier record (the same story viewed
    again, or another story of the same component) can be taken out of the
    history without changing the results. *)
Theorem lastViewedResults_repeated (dataset : CombinedDataset)
    (before after : list Selection) (earlier sel : Selection) (x : Resolved) :
  hash_by_id dataset →
  stories_have_parents dataset (before ++ sel :: after) →
  earlier ∈ before →
  resolve dataset sel = Some x →
  pair_of <$> resolve dataset earlier = Some (pair_of x) →
  lastViewedResults dataset (before ++ sel :: after)
  = lastViewedResults dataset (before ++ after).
Proof.
  intros Hh Hp Hin Hx Hearlier.
  unfold lastViewedResults. rewrite !reduce_app.
  destruct (reduce (lastViewedStep dataset) before []) as [acc|e|b] eqn:Hred;
    [|done|done].
  simpl. rewrite (lastViewedStep_resolved _ _ _ _ Hx).
  apply fmap_Some in Hearlier as (y & Hy & Hpair).
  pose proof (reduce_lastViewed_holds _ _ _ _ _ _ Hh Hin Hy Hred) as Hhas.
  destruct (resolve_from_dataset _ _ _ Hx) as [_ Hrx].
  destruct (resolve_from_dataset _ _ _ Hy) as [_ Hry].
  unfold pair_of in Hpair. injection Hpair as Hr Hi.
  rewrite <- Hry, <- Hr, Hrx, <- Hi in Hhas. by rewrite Hhas.
Qed.

Lemma lastViewedResults_repeated_witness :
  lastViewedResults a_dataset
    ([viewed "s1" "r1"; viewed "d1" "r1"]
     ++ viewed "s2" "r1" :: [viewed "zz" "r1"; viewed "s1" "r9"])
  = lastViewedResults a_dataset
      ([viewed "s1" "r1"; viewed "d1" "r1"] ++ [viewed "zz" "r1"; viewed "s1" "r9"]).
Proof.
  apply (lastViewedResults_repeated a_dataset _ _ (viewed "s1" "r1") _
           ("r1", r1, an_item "c1" component None)).
  - exact a_dataset_by_id.
  - exact a_history_parents.
  - left.
  - by vm_compute.
  - by vm_compute.
Defined.

(** ** Expanding, end to end *)

(** X19: choosing the marker of a result sequence (click or Enter) sets
    "show all", and the results computed next for the same input have no
    marker, begin with the search results shown before, and hold every
    distinct match up to the thousandth. *)
Theorem expand_then_results (cb : string → string → M unit)
    (state : DownshiftState) (changes : StateChangeOptions) (w : World)
    (fuse : ustring → list SearchResult) (input : ustring)
    (results : list DownshiftItem) (e : ExpandType) :
  outcome (getResults fuse false input) = Returned results →
  ExpandItem e ∈ results →
  change_type changes = Some clickItem ∨ change_type changes = Some keyDownEnter →
  changes_selectedItem changes = Some (ExpandItem e) →
  allComponents (run w (effects (stateReducer cb state changes))) = true
  ∧ ∃ after,
      outcome (getResults fuse
                 (allComponents (run w (effects (stateReducer cb state changes))))
                 input)
      = Returned after
      ∧ (∀ e', ExpandItem e' ∉ after)
      ∧ (ResultItem <$> result_items results) `prefix_of` after
      ∧ result_items after = take 1000 (distinctResults (fuse input)).
Proof.
  intros Hres He Ht Hs.
  rewrite (stateReducer_on_marker _ _ _ _ Ht Hs).
  rewrite (getResults_marker_action _ _ _ _ _ Hres He). simpl.
  split; [done|].
  destruct (truthyStr input) eqn:Hin.
  - rewrite getResults_search_all by done. eexists. split; [reflexivity|].
    split; [|split].
    + intros e' (r & [=] & _)%list_elem_of_fmap.
    + rewrite (getResults_search fuse false) in Hres by done.
      injection Hres as <-. rewrite result_items_closed.
      unfold cap, DEFAULT_MAX_SEARCH_RESULTS.
      replace (take 50 (distinctResults (fuse input)))
        with (take 50 (take 1000 (distinctResults (fuse input))))
        by (rewrite take_take; f_equal; lia).
      rewrite fmap_take. apply prefix_take.
    + rewrite <- (app_nil_r (ResultItem <$> _)).
      change (@nil DownshiftItem) with (ExpandItem <$> []).
      apply result_items_closed.
  - destruct input; [|done]. rewrite getResults_empty in Hres.
    injection Hres as <-. by apply elem_of_nil in He.
Qed.

Lemma expand_then_results_witness :
  allComponents
    (run a_world
       (effects (stateReducer (selectStory "storybook_internal" None) typed_state
                   (enter_on (ExpandItem sixty_marker)))))
  = true
  ∧ ∃ after,
      outcome (getResults sixty_components
                 (allComponents
                    (run a_world
                       (effects (stateReducer (selectStory "storybook_internal" None)
                                   typed_state (enter_on (ExpandItem sixty_marker))))))
                 [98%N])
      = Returned after
      ∧ (∀ e', ExpandItem e' ∉ after)
      ∧ (ResultItem <$> result_items
           ((ResultItem <$> (component_of <$> seq 0 50)) ++ [ExpandItem sixty_marker]))
        `prefix_of` after
      ∧ result_items after = take 1000 (distinctResults (sixty_components [98%N])).
Proof.
  apply (expand_then_results (selectStory "storybook_internal" None) typed_state
           (enter_on (ExpandItem sixty_marker)) a_world sixty_components [98%N]
           ((ResultItem <$> (component_of <$> seq 0 50)) ++ [ExpandItem sixty_marker])
           sixty_marker).
  - by vm_compute.
  - apply elem_of_app. right. left.
  - by right.
  - reflexivity.
Defined.
